(** * zlint: the gTLD validity-table builder and the lint execution contract

    A shallow embedding of [zlint-gtld-update] (package [main]: [getData],
    [getTLDData], [getGTLDData], [delegatedGTLDs], [validateGTLDs],
    [renderGTLDMap], [main] and the [gTLDMapTemplate]) and of the lint
    execution contract that [lints/lint_qcstatem_etsi_type_as_statem_test.go]
    calls, followed by the parts of the generated protobuf and gRPC stubs
    that carry logic: an enum with its lookup maps, the getters of a oneof,
    and a unary server handler.

    Go strings are byte strings: [string] (a list of [ascii] bytes).  The Go
    [map[string]util.GTLDPeriod] is a [gmap string GTLDPeriod].  A Go function
    returning [(T, error)] returns a [result T]; one returning [error] returns
    an [option error] ([None] is [nil]).  Calls into the Go standard library
    whose behaviour the program does not define ([time.Parse], [json.Unmarshal],
    the HTTP client, [go/format], the template escaper, the Unicode paths of
    [strings]) are Section variables, so that every theorem holds whatever
    those calls return. *)

From Stdlib Require Import ZArith NArith Ascii.
From Stdlib Require String.
From stdpp Require Import base option list gmap strings fin_maps sorting.

Local Open Scope Z_scope.

(** ** Byte-string helpers *)

Definition newline : ascii := "010"%char.
Definition tab : ascii := "009"%char.
Definition nl : string := String newline "".
Definition tb : string := String tab "".
(** The double-quote byte, 0x22. *)
Definition dq : string := String "034"%char "".

Fixpoint mapBytes (f : ascii → ascii) (s : string) : string :=
  match s with
  | EmptyString => EmptyString
  | String c s' => String (f c) (mapBytes f s')
  end.

Fixpoint allBytes (p : ascii → bool) (s : string) : bool :=
  match s with
  | EmptyString => true
  | String c s' => p c && allBytes p s'
  end.

Fixpoint anyByte (p : ascii → bool) (s : string) : bool :=
  match s with
  | EmptyString => false
  | String c s' => p c || anyByte p s'
  end.

(** [s[:n]]: the first [n] bytes of [s] (all of [s] when it is shorter). *)
Fixpoint takeBytes (n : nat) (s : string) : string :=
  match n, s with
  | O, _ => EmptyString
  | S _, EmptyString => EmptyString
  | S n', String c s' => String c (takeBytes n' s')
  end.

(** [strings.Split(s, sep)] for a one-byte separator: the pieces between the
    separators, so [n] separators give [n + 1] pieces and the empty string
    gives one empty piece. *)
Fixpoint strings_Split (s : string) (sep : ascii) : list string :=
  match s with
  | EmptyString => [EmptyString]
  | String c s' =>
      if Ascii.eqb c sep then EmptyString :: strings_Split s' sep
      else match strings_Split s' sep with
           | piece :: pieces => String c piece :: pieces
           | [] => [String c EmptyString]
           end
  end.

(** [strings.HasPrefix(s, prefix)]. *)
Definition strings_HasPrefix (s prefix : string) : bool := String.prefix prefix s.

(** [utf8.RuneSelf]: bytes below it are single-byte ASCII runes. *)
Definition utf8_RuneSelf : N := 128%N.

Definition isASCIIByte (c : ascii) : bool := (N_of_ascii c <? utf8_RuneSelf)%N.
Definition isUpperByte (c : ascii) : bool :=
  (N_of_ascii "A" <=? N_of_ascii c)%N && (N_of_ascii c <=? N_of_ascii "Z")%N.
(** [c += 'a' - 'A'] for an upper-case ASCII letter, [c] otherwise. *)
Definition lowerByte (c : ascii) : ascii :=
  if isUpperByte c then ascii_of_N (N_of_ascii c + (N_of_ascii "a" - N_of_ascii "A"))%N else c.

(** ** Shared data entity *)

Module util.
(** Modelled from the spec: the [util.GTLDPeriod] struct, whose declaration
    is in the [util] package; the builder reads and writes its three string
    fields [GTLD], [DelegationDate] and [RemovalDate]. *)
Record GTLDPeriod : Type := mkGTLDPeriod {
  GTLD : string;
  DelegationDate : string;
  RemovalDate : string
}.

#[global] Instance GTLDPeriod_eq_dec : EqDecision GTLDPeriod.
Proof. solve_decision. Defined.
End util.
Import util.

(** ** Errors *)

(** The error values the builder can return: one constructor per
    [fmt.Errorf] site, and [library_error] for an error value handed back by
    a library or system call. *)
Inductive error : Type :=
  | library_error (msg : string)
  | unable_to_fetch (url : string) (err : error)
  | unexpected_status (url : string) (expected got : Z)
  | error_reading_body (url : string) (err : error)
  | error_getting_TLD_list (err : error)
  | error_getting_gTLD_JSON (err : error)
  | error_unmarshaling (url : string) (err : error).

#[global] Instance error_eq_dec : EqDecision error.
Proof. solve_decision. Defined.

Inductive result (A : Type) : Type :=
  | Ok (a : A)
  | Err (err : error).
Arguments Ok {A} a.
Arguments Err {A} err.

(** [io.Writer]: [Write] returns the writer after the call, the number of
    bytes it took and the error. *)
Class io_Writer (W : Type) : Type :=
  Write : W → string → W * (nat * option error).

(** [bytes.Buffer] as a writer: it appends and never fails. *)
#[global] Instance bytes_Buffer : io_Writer string :=
  fun buf p => (buf +:+ p, (String.length p, None)).

(** [http.Response], as far as [getData] reads it: the status code and what
    [ioutil.ReadAll(resp.Body)] returns. *)
Record http_Response : Type := mkResponse {
  StatusCode : Z;
  Body : result string
}.

Definition http_StatusOK : Z := 200.

(** ** zlint-gtld-update *)

Module gtld_update.

Definition ICANN_GTLD_JSON : string :=
  "https://www.icann.org/resources/registries/gtlds/v2/gtlds.json".
Definition ICANN_TLDS : string :=
  "https://data.iana.org/TLD/tlds-alpha-by-domain.txt".

Section Builder.

(** [httpClient.Get(url)]: the response the network gives for a URL. *)
Variable httpClient_Get : string → result http_Response.
(** [json.Unmarshal(respBody, &results)] followed by [results.GTLDs]. *)
Variable json_Unmarshal : string → result (list GTLDPeriod).
(** [util.GTLDPeriodDateFormat], the layout constant of the [util] package. *)
Variable GTLDPeriodDateFormat : string.
(** [time.Parse(layout, value)], keeping only its error. *)
Variable time_Parse : string → string → option error.
(** [strings.TrimSpace]. *)
Variable strings_TrimSpace : string → string.
(** [strings.Map(unicode.ToLower, s)], the path of [strings.ToLower] for a
    string with a byte at or above [utf8.RuneSelf]. *)
Variable strings_Map_unicode_ToLower : string → string.
(** The escaper html/template applies to an action in text context. *)
Variable htmlEscaper : string → string.
(** [format.Source]. *)
Variable format_Source : string → result string.

(** [strings.ToLower]: an ASCII-only string is lowered byte by byte (and
    returned as it is when it has no upper-case letter), any other string
    goes through [strings.Map(unicode.ToLower, s)]. *)
Definition strings_ToLower (s : string) : string :=
  let isASCII := allBytes isASCIIByte s in
  let hasUpper := anyByte isUpperByte s in
  if isASCII then
    if negb hasUpper then s else mapBytes lowerByte s
  else strings_Map_unicode_ToLower s.

Definition getData (url : string) : result string :=
  match httpClient_Get url with
  | Err err => Err (unable_to_fetch url err)
  | Ok resp =>
      if negb (StatusCode resp =? http_StatusOK) then
        Err (unexpected_status url http_StatusOK (StatusCode resp))
      else
        match Body resp with
        | Err err => Err (error_reading_body url err)
        | Ok respBody => Ok respBody
        end
  end.

(** The test of the [continue] in [getTLDData]: an empty line (after
    [strings.TrimSpace]) or the header comment line. *)
Definition skipLine (tld : string) : bool :=
  bool_decide (strings_TrimSpace tld = "") || strings_HasPrefix tld "#".

(** The entry [getTLDData] appends for a line it keeps. *)
Definition tldOf (tld : string) : GTLDPeriod :=
  {| GTLD := strings_ToLower tld;
     DelegationDate := "1985-01-01";
     RemovalDate := "" |}.

(** The body of the [for _, tld := range tlds] loop of [getTLDData]. *)
Definition tldStep (results : list GTLDPeriod) (tld : string) : list GTLDPeriod :=
  if skipLine tld then results else results ++ [tldOf tld].

Definition collectTLDs (tlds : list string) : list GTLDPeriod :=
  foldl tldStep [] tlds.

Definition tldsOfBody (respBody : string) : list GTLDPeriod :=
  let tlds := strings_Split respBody newline in
  collectTLDs tlds.

Definition getTLDData : result (list GTLDPeriod) :=
  match getData ICANN_TLDS with
  | Err err => Err (error_getting_TLD_list err)
  | Ok respBody => Ok (tldsOfBody respBody)
  end.

Definition getGTLDData : result (list GTLDPeriod) :=
  match getData ICANN_GTLD_JSON with
  | Err err => Err (error_getting_gTLD_JSON err)
  | Ok respBody =>
      match json_Unmarshal respBody with
      | Err err => Err (error_unmarshaling ICANN_GTLD_JSON err)
      | Ok GTLDs => Ok GTLDs
      end
  end.

Definition delegatedStep (results : list GTLDPeriod) (gTLD : GTLDPeriod) : list GTLDPeriod :=
  if bool_decide (DelegationDate gTLD = "") then results else results ++ [gTLD].

Definition delegatedGTLDs (entries : list GTLDPeriod) : list GTLDPeriod :=
  foldl delegatedStep [] entries.

(** An entry fails validation: its delegation date does not parse, or its
    removal date is not empty and does not parse. *)
Definition badDates (gTLD : GTLDPeriod) : Prop :=
  time_Parse GTLDPeriodDateFormat (DelegationDate gTLD) ≠ None
  ∨ (RemovalDate gTLD ≠ "" ∧ time_Parse GTLDPeriodDateFormat (RemovalDate gTLD) ≠ None).

Fixpoint validateGTLDs (entries : list GTLDPeriod) : option error :=
  match entries with
  | [] => None
  | gTLD :: rest =>
      match time_Parse GTLDPeriodDateFormat (DelegationDate gTLD) with
      | Some err => Some err
      | None =>
          match time_Parse GTLDPeriodDateFormat (RemovalDate gTLD) with
          | Some err =>
              if bool_decide (RemovalDate gTLD ≠ "") then Some err
              else validateGTLDs rest
          | None => validateGTLDs rest
          end
      end
  end.

(** The two loops of [renderGTLDMap] that fill [tldMap]. *)
Definition dedupStep (tldMap : gmap string GTLDPeriod) (tld : GTLDPeriod)
  : gmap string GTLDPeriod :=
  <[GTLD tld := tld]> tldMap.

Definition populateStep (tldMap : gmap string GTLDPeriod) (tld : GTLDPeriod)
  : gmap string GTLDPeriod :=
  match tldMap !! GTLD tld with
  | Some _ => tldMap
  | None => <[GTLD tld := tld]> tldMap
  end.

Definition buildTLDMap (delegated allTLDs : list GTLDPeriod) : gmap string GTLDPeriod :=
  let tldMap := foldl dedupStep ∅ delegated in
  foldl populateStep tldMap allTLDs.

(** *** The template

    [gTLDMapTemplate] is an html/template whose text never leaves text
    context, so each action is passed through [htmlEscaper].  A [range]
    over a map visits the keys in sorted (byte-wise) order; the trim
    markers of [{{- range}}] and [{{- end}}] eat the newline before them. *)

Definition keyLe (p q : string * GTLDPeriod) : Prop := String.le p.1 q.1.

#[local] Instance keyLe_dec : RelDecision keyLe.
Proof. intros p q. unfold keyLe. apply _. Defined.

Definition rangeGTLDs (GTLDs : gmap string GTLDPeriod) : list GTLDPeriod :=
  (merge_sort keyLe (map_to_list GTLDs)).*2.

Definition quoted (s : string) : string := dq +:+ s +:+ dq.

(** One entry of the generated map literal: a quoted key and the three
    fields, as both the [range] body and the [onion] literal write it. *)
Definition entryText (key gtld delegationDate removalDate : string) : string :=
  tb +:+ quoted key +:+ ": {" +:+ nl +:+
  tb +:+ tb +:+ "GTLD: " +:+ quoted gtld +:+ "," +:+ nl +:+
  tb +:+ tb +:+ "DelegationDate: " +:+ quoted delegationDate +:+ "," +:+ nl +:+
  tb +:+ tb +:+ "RemovalDate: " +:+ quoted removalDate +:+ "," +:+ nl +:+
  tb +:+ "},".

Definition templateHeader : string :=
  String.concat nl [
    "// Code generated by go generate; DO NOT EDIT.";
    "// This file was generated by zlint-gtld-update.";
    "";
    "/*";
    " * ZLint Copyright 2018 Regents of the University of Michigan";
    " *";
    " * Licensed under the Apache License, Version 2.0 (the " +:+ quoted "License" +:+ "); you may not";
    " * use this file except in compliance with the License. You may obtain a copy";
    " * of the License at http://www.apache.org/licenses/LICENSE-2.0";
    " *";
    " * Unless required by applicable law or agreed to in writing, software";
    " * distributed under the License is distributed on an " +:+ quoted "AS IS" +:+ " BASIS,";
    " * WITHOUT WARRANTIES OR CONDITIONS OF ANY KIND, either express or";
    " * implied. See the License for the specific language governing";
    " * permissions and limitations under the License.";
    " */";
    "";
    "package util";
    "";
    "var tldMap = map[string]GTLDPeriod{" ].

Definition rangeBody (tld : GTLDPeriod) : string :=
  nl +:+ entryText (htmlEscaper (GTLD tld)) (htmlEscaper (GTLD tld))
                   (htmlEscaper (DelegationDate tld)) (htmlEscaper (RemovalDate tld)).

Definition onionComment : string :=
  String.concat nl [
    tb +:+ "// .onion is a special case and not a general gTLD. However, it is allowed in";
    tb +:+ "// some circumstances in the web PKI so the Zlint gtldMap includes it with";
    tb +:+ "// a delegationDate based on the CABF ballot to allow EV issuance for .onion";
    tb +:+ "// domains: https://cabforum.org/2015/02/18/ballot-144-validation-rules-dot-onion-names/" ].

Definition onionEntry : string := entryText "onion" "onion" "2015-02-18" "".

Definition templateFooter : string :=
  nl +:+ onionComment +:+ nl +:+ onionEntry +:+ nl +:+ "}" +:+ nl.

(** [gTLDMapTemplate.Execute(&buf, templateData)] on an empty buffer: the
    text left in [buf]. *)
Definition gTLDMapTemplate_Execute (GTLDs : gmap string GTLDPeriod) : result string :=
  Ok (templateHeader +:+ String.concat "" (rangeBody <$> rangeGTLDs GTLDs) +:+ templateFooter).

Definition renderGTLDMap {W : Type} `{!io_Writer W} (writer : W) : W * option error :=
  match getGTLDData with
  | Err err => (writer, Some err)
  | Ok allGTLDs =>
      let delegated := delegatedGTLDs allGTLDs in
      match validateGTLDs delegated with
      | Some err => (writer, Some err)
      | None =>
          match getTLDData with
          | Err err => (writer, Some err)
          | Ok allTLDs =>
              let tldMap := buildTLDMap delegated allTLDs in
              match gTLDMapTemplate_Execute tldMap with
              | Err err => (writer, Some err)
              | Ok buf =>
                  match format_Source buf with
                  | Err err => (writer, Some err)
                  | Ok formatted =>
                      let '(writer', (_, err)) := Write writer formatted in
                      (writer', err)
                  end
              end
          end
      end
  end.

(** *** The process around [main]

    [OS] is what [main] can touch: the files by name, the two standard
    streams, the names [os.OpenFile] refuses, and, for each file and
    payload, whether a [Write] fails and after how many bytes. *)

Inductive os_File : Type :=
  | os_Stdout
  | os_Named (name : string).

Record OS : Type := mkOS {
  files : gmap string string;
  stdout : string;
  stderr : list error;
  open_error : string → option error;
  write_fault : os_File → string → option (nat * error)
}.

Definition appendTo (f : os_File) (p : string) (os : OS) : OS :=
  match f with
  | os_Stdout =>
      mkOS (files os) (stdout os +:+ p) (stderr os) (open_error os) (write_fault os)
  | os_Named name =>
      mkOS (<[name := default "" (files os !! name) +:+ p]> (files os))
           (stdout os) (stderr os) (open_error os) (write_fault os)
  end.

(** [syscall.EPIPE], the error of a write to a pipe nobody reads, and the
    signal it raises. *)
Definition syscall_EPIPE : error := library_error "broken pipe".
Definition SIGPIPE : Z := 13.

(** A process killed by a signal has no exit status; where an exit status is
    expected it shows as minus the signal number, which no exit status
    is. *)
Definition killedBy (signal : Z) : Z := - signal.

(** An [os.File] in its process: the machine, the file, and the signal that
    killed the process, if one did. *)
Record os_Process : Type := mkProcess {
  machine : OS;
  file : os_File;
  signalled : option Z
}.

(** [Write] on an [os.File]: the bytes taken before a fault stay written.  On
    standard output a write that fails with [EPIPE] raises [SIGPIPE], which
    kills the process (the Go runtime does so for descriptors 1 and 2); on
    any other file the error comes back to the caller.  A killed process
    runs no further: a [Write] after that is never reached and does
    nothing. *)
#[global] Instance os_File_Writer : io_Writer os_Process :=
  fun w p =>
    match signalled w with
    | Some _ => (w, (0%nat, Some syscall_EPIPE))
    | None =>
        match write_fault (machine w) (file w) p with
        | None =>
            (mkProcess (appendTo (file w) p (machine w)) (file w) None,
             (String.length p, None))
        | Some (n, err) =>
            let written := takeBytes n p in
            let os' := appendTo (file w) written (machine w) in
            match file w with
            | os_Stdout =>
                if bool_decide (err = syscall_EPIPE)
                then (mkProcess os' (file w) (Some SIGPIPE),
                      (String.length written, Some err))
                else (mkProcess os' (file w) None,
                      (String.length written, Some err))
            | os_Named _ =>
                (mkProcess os' (file w) None, (String.length written, Some err))
            end
        end
    end.

(** [os.OpenFile(filename, os.O_CREATE|os.O_TRUNC|os.O_WRONLY, 0664)]. *)
Definition os_OpenFile_create_trunc (filename : string) (os : OS) : result (OS * os_File) :=
  match open_error os filename with
  | Some err => Err err
  | None =>
      Ok (mkOS (<[filename := ""]> (files os))
               (stdout os) (stderr os) (open_error os) (write_fault os),
          os_Named filename)
  end.

(** [errQuit]: report on standard error and [os.Exit(1)]. *)
Definition errQuit (err : error) (os : OS) : OS * Z :=
  (mkOS (files os) (stdout os) (stderr os ++ [err]) (open_error os) (write_fault os), 1).

(** How the process ends once [renderGTLDMap] is over: killed by a signal
    during the [Write], or through [errQuit], or by returning from [main]. *)
Definition finish (r : os_Process * option error) : OS * Z :=
  let '(w, err) := r in
  match signalled w with
  | Some signal => (machine w, killedBy signal)
  | None =>
      match err with
      | Some err => errQuit err (machine w)
      | None => (machine w, 0)
      end
  end.

(** [main], given [flag.Args()]; the second component is the exit status. *)
Definition main (args : list string) (os : OS) : OS * Z :=
  match args with
  | [] => finish (renderGTLDMap (mkProcess os os_Stdout None))
  | filename :: _ =>
      match os_OpenFile_create_trunc filename os with
      | Err err => errQuit err os
      | Ok (os1, f) => finish (renderGTLDMap (mkProcess os1 f None))
      end
  end.

End Builder.

End gtld_update.

(** ** The lint execution contract *)

Module lints.

(** Modelled from the spec: the status set of section 3, declared in the
    [lints] package as [LintStatus]; the test spells not-applicable [NA]. *)
Inductive LintStatus : Type := NA | Pass | Warn | Error | Fatal.

#[global] Instance LintStatus_eq_dec : EqDecision LintStatus.
Proof. solve_decision. Defined.

(** Modelled from the spec: [LintResult], a status and an optional
    human-readable detail string. *)
Record LintResult : Type := mkLintResult {
  Status : LintStatus;
  Details : option string
}.

(** Modelled from the spec: the parsed certificate, of which the engine
    reads the issuance date (seconds since the epoch); the decoder that
    produces it is an external collaborator. *)
Record Certificate : Type := mkCertificate {
  NotBefore : Z;
  Raw : string
}.

(** Modelled from the spec: what running a piece of lint logic gives, a
    value or an unexpected fault with its diagnostic (section 4.2, failure
    containment); the lint logic itself is in the [lints] package. *)
Inductive outcome (A : Type) : Type :=
  | returned (a : A)
  | faulted (diagnostic : string).
Arguments returned {A} a.
Arguments faulted {A} diagnostic.

(** Modelled from the spec: a [Lint] of section 3, with its optional
    effective-date window [(start, end)], its applicability predicate and
    its verdict function. *)
Record Lint : Type := mkLint {
  Name : string;
  Description : string;
  Citation : string;
  Source : string;
  EffectiveWindow : option (Z * Z);
  CheckApplies : Certificate → outcome bool;
  Check : Certificate → outcome LintResult
}.

(** Modelled from the spec: the effectivity check of section 4.2, the
    issuance date lies in the half-open window [start, end); a lint without
    a window is always in force. *)
Definition isEffective (l : Lint) (c : Certificate) : bool :=
  match EffectiveWindow l with
  | None => true
  | Some (start, end_) => (start <=? NotBefore c) && (NotBefore c <? end_)
  end.

(** Modelled from the spec: [execute] of section 4.2.  Step 1 is the
    effectivity check, step 2 the applicability check, step 3 the verdict;
    a fault of step 2 or 3 becomes a [Fatal] result with the diagnostic. *)
Definition execute (l : Lint) (c : Certificate) : LintResult :=
  if negb (isEffective l c) then mkLintResult NA None
  else
    match CheckApplies l c with
    | faulted diagnostic => mkLintResult Fatal (Some diagnostic)
    | returned false => mkLintResult NA None
    | returned true =>
        match Check l c with
        | faulted diagnostic => mkLintResult Fatal (Some diagnostic)
        | returned res => res
        end
    end.

(** Modelled from the spec: the registry of section 4.1, a map from lint
    name to lint; [register] refuses a name that is taken. *)
Definition register (l : Lint) (reg : gmap string Lint) : result (gmap string Lint) :=
  match reg !! Name l with
  | Some _ => Err (library_error "lint name already registered")
  | None => Ok (<[Name l := l]> reg)
  end.

(** Modelled from the spec: [get] of section 4.1, the lint or nothing. *)
Definition get (name : string) (reg : gmap string Lint) : option Lint := reg !! name.

Definition nameLe (p q : string * Lint) : Prop := String.le p.1 q.1.

#[local] Instance nameLe_dec : RelDecision nameLe.
Proof. intros p q. unfold nameLe. apply _. Defined.

(** Modelled from the spec: [all] of section 4.1, the registered lints in
    a stable order (here by name). *)
Definition all (reg : gmap string Lint) : list Lint :=
  (merge_sort nameLe (map_to_list reg)).*2.

(** Modelled from the spec: all registered lints run on one certificate,
    each result with the name of its lint. *)
Definition executeAll (reg : gmap string Lint) (c : Certificate) : list (string * LintResult) :=
  (λ l, (Name l, execute l c)) <$> all reg.

(** Modelled from the spec: the batch over several certificates. *)
Definition executeBatch (reg : gmap string Lint) (certs : list Certificate)
  : list (list (string * LintResult)) :=
  executeAll reg <$> certs.

End lints.

(** ** Concrete library behaviour and feeds, for running the model *)

Module fixtures.
Import gtld_update.

Definition isDigit (c : ascii) : bool :=
  (N_of_ascii "0" <=? N_of_ascii c)%N && (N_of_ascii c <=? N_of_ascii "9")%N.
Definition digit (c : ascii) : Z := Z.of_N (N_of_ascii c) - Z.of_N (N_of_ascii "0").

Definition isLeap (year : Z) : bool :=
  (year mod 4 =? 0) && (negb (year mod 100 =? 0) || (year mod 400 =? 0)).

Definition daysIn (month year : Z) : Z :=
  if month =? 2 then (if isLeap year then 29 else 28)
  else if (month =? 4) || (month =? 6) || (month =? 9) || (month =? 11) then 30
  else 31.

(** [time.Parse] for the layout [2006-01-02]: four year digits, two month
    digits in 1..12 and two day digits valid for that month, separated by
    dashes, and nothing after them.  Other layouts are not modelled. *)
Definition time_Parse (layout value : string) : option error :=
  if bool_decide (layout = "2006-01-02") then
    match value with
    | String y1 (String y2 (String y3 (String y4 (String d1
        (String m1 (String m2 (String d2 (String a1 (String a2 EmptyString))))))))) =>
        if forallb isDigit [y1; y2; y3; y4; m1; m2; a1; a2]
           && Ascii.eqb d1 "-"%char && Ascii.eqb d2 "-"%char then
          let year := 1000 * digit y1 + 100 * digit y2 + 10 * digit y3 + digit y4 in
          let month := 10 * digit m1 + digit m2 in
          let day := 10 * digit a1 + digit a2 in
          if (1 <=? month) && (month <=? 12) && (1 <=? day) && (day <=? daysIn month year)
          then None
          else Some (library_error "parsing time: out of range")
        else Some (library_error "parsing time: cannot parse")
    | _ => Some (library_error "parsing time: cannot parse")
    end
  else Some (library_error "layout not modelled").

Definition GTLDPeriodDateFormat : string := "2006-01-02".

(** [strings.TrimSpace] on ASCII text: the ASCII white space is cut from
    both ends. *)
Fixpoint trimLeft (s : string) : string :=
  match s with
  | String c s' => if Ascii.is_space c then trimLeft s' else s
  | EmptyString => EmptyString
  end.
Definition strings_TrimSpace (s : string) : string :=
  String.rev (trimLeft (String.rev (trimLeft s))).

(** Not reached on ASCII input. *)
Definition strings_Map_unicode_ToLower (s : string) : string := s.

(** The replacement table of the html/template text escaper. *)
Fixpoint htmlEscaper (s : string) : string :=
  match s with
  | EmptyString => EmptyString
  | String c s' =>
      (if Ascii.eqb c "034"%char then "&#34;"
       else if Ascii.eqb c "&"%char then "&amp;"
       else if Ascii.eqb c "'"%char then "&#39;"
       else if Ascii.eqb c "+"%char then "&#43;"
       else if Ascii.eqb c "<"%char then "&lt;"
       else if Ascii.eqb c ">"%char then "&gt;"
       else if Ascii.eqb c "000"%char
            then String "239"%char (String "191"%char (String "189"%char ""))
       else String c "") +:+ htmlEscaper s'
  end.

(** A formatter that accepts every text and returns it as it is; the
    layout work of gofmt is not modelled. *)
Definition format_Source (src : string) : result string := Ok src.

(** A network on which both feeds answer 200: Source A's body decodes to
    [sourceA], Source B's body is [sourceB]. *)
Definition httpClient_Get (sourceB : string) (url : string) : result http_Response :=
  if bool_decide (url = ICANN_GTLD_JSON) then Ok (mkResponse 200 (Ok "gtlds.json"))
  else if bool_decide (url = ICANN_TLDS) then Ok (mkResponse 200 (Ok sourceB))
  else Err (library_error "no such host").

Definition json_Unmarshal (sourceA : list GTLDPeriod) (respBody : string)
  : result (list GTLDPeriod) := Ok sourceA.

(** The builder on these feeds. *)
Definition render {W : Type} `{!io_Writer W} (sourceA : list GTLDPeriod) (sourceB : string)
  (writer : W) : W * option error :=
  renderGTLDMap (httpClient_Get sourceB) (json_Unmarshal sourceA)
    GTLDPeriodDateFormat time_Parse strings_TrimSpace strings_Map_unicode_ToLower
    htmlEscaper format_Source writer.

Definition run (sourceA : list GTLDPeriod) (sourceB : string) (args : list string) (os : OS)
  : OS * Z :=
  main (httpClient_Get sourceB) (json_Unmarshal sourceA)
    GTLDPeriodDateFormat time_Parse strings_TrimSpace strings_Map_unicode_ToLower
    htmlEscaper format_Source args os.

Definition table (sourceA : list GTLDPeriod) (sourceB : string) : gmap string GTLDPeriod :=
  buildTLDMap (delegatedGTLDs sourceA)
    (tldsOfBody strings_TrimSpace strings_Map_unicode_ToLower sourceB).

Definition com : GTLDPeriod := mkGTLDPeriod "com" "1985-01-01" "".
Definition mutuelle : GTLDPeriod := mkGTLDPeriod "mutuelle" "2015-08-13" "2020-01-01".
Definition aaa : GTLDPeriod := mkGTLDPeriod "aaa" "2015-08-13" "".
Definition aaaEarlier : GTLDPeriod := mkGTLDPeriod "aaa" "2014-02-05" "2015-01-01".
Definition upperCOM : GTLDPeriod := mkGTLDPeriod "COM" "1985-01-01" "".
Definition undelegated : GTLDPeriod := mkGTLDPeriod "example" "" "".
Definition badDate : GTLDPeriod := mkGTLDPeriod "wrong" "13 August 2015" "".

(** A machine on which [out.go] exists, every file can be opened, and a
    [Write] to a file fails for lack of space after seven bytes. *)
Definition fullDisk : OS :=
  mkOS {[ "out.go" := "package util" ]} "" [] (λ _, None)
       (λ f _, match f with
               | os_Named _ => Some (7%nat, library_error "no space left on device")
               | os_Stdout => None
               end).

(** The same machine with a network that is down. *)
Definition offline (url : string) : result http_Response :=
  Err (library_error "dial tcp: i/o timeout").

Definition runOffline (args : list string) (os : OS) : OS * Z :=
  main offline (json_Unmarshal []) GTLDPeriodDateFormat time_Parse strings_TrimSpace
    strings_Map_unicode_ToLower htmlEscaper format_Source args os.

Definition sourceB : string :=
  String.concat nl ["# Version 2018110500, Last Updated Mon Nov  5 07:07:01 2018 UTC";
                    "AAA"; "COM"; "UK"; ""].

(** Two lints and a registry: one whose applicability predicate faults on
    every certificate, one in force on [100, 200) that reports an error. *)
Import lints.

Definition faulty : Lint :=
  mkLint "e_faulty" "always faults" "none" "none" None
         (λ _, faulted "nil pointer dereference")
         (λ _, returned (mkLintResult Pass None)).

Definition windowed : Lint :=
  mkLint "e_windowed" "in force on [100, 200)" "none" "none" (Some (100, 200))
         (λ _, returned true)
         (λ _, returned (mkLintResult Error (Some "rule violated"))).

Definition registry : gmap string Lint :=
  <["e_faulty" := faulty]> (<["e_windowed" := windowed]> ∅).

Definition issuedAt (t : Z) : Certificate := mkCertificate t "".

End fixtures.

(** ** Generated protobuf messages and gRPC stubs *)

(** What evaluating Go code gives: a result, or a run-time panic (a nil
    pointer dereference, a failed type assertion). *)
Inductive go (A : Type) : Type :=
  | returns (a : A)
  | panics.
Arguments returns {A} a.
Arguments panics {A}.

(** Package [enums]: [OfflineUserDataJobTypeEnum_OfflineUserDataJobType], an
    [int32] with five named constants and the two generated lookup maps. *)
Module enums.

Definition OfflineUserDataJobTypeEnum_UNSPECIFIED : Z := 0.
Definition OfflineUserDataJobTypeEnum_UNKNOWN : Z := 1.
Definition OfflineUserDataJobTypeEnum_STORE_SALES_UPLOAD_FIRST_PARTY : Z := 2.
Definition OfflineUserDataJobTypeEnum_STORE_SALES_UPLOAD_THIRD_PARTY : Z := 3.
Definition OfflineUserDataJobTypeEnum_CUSTOMER_MATCH_USER_LIST : Z := 4.

Definition OfflineUserDataJobTypeEnum_OfflineUserDataJobType_name : gmap Z string :=
  list_to_map [
    (0, "UNSPECIFIED");
    (1, "UNKNOWN");
    (2, "STORE_SALES_UPLOAD_FIRST_PARTY");
    (3, "STORE_SALES_UPLOAD_THIRD_PARTY");
    (4, "CUSTOMER_MATCH_USER_LIST") ].

Definition OfflineUserDataJobTypeEnum_OfflineUserDataJobType_value : gmap string Z :=
  list_to_map [
    ("UNSPECIFIED", 0);
    ("UNKNOWN", 1);
    ("STORE_SALES_UPLOAD_FIRST_PARTY", 2);
    ("STORE_SALES_UPLOAD_THIRD_PARTY", 3);
    ("CUSTOMER_MATCH_USER_LIST", 4) ].

(** [Number]: the enum value as a [protoreflect.EnumNumber]. *)
Definition Number (x : Z) : Z := x.

(** The constants of the [const] block, in the order they are declared. *)
Definition declaredConstants : list Z :=
  [ OfflineUserDataJobTypeEnum_UNSPECIFIED;
    OfflineUserDataJobTypeEnum_UNKNOWN;
    OfflineUserDataJobTypeEnum_STORE_SALES_UPLOAD_FIRST_PARTY;
    OfflineUserDataJobTypeEnum_STORE_SALES_UPLOAD_THIRD_PARTY;
    OfflineUserDataJobTypeEnum_CUSTOMER_MATCH_USER_LIST ].

End enums.

(** Package [services] (googleads v2): the [KeywordPlanKeywordOperation]
    message with its [operation] oneof.  A pointer is an [option] ([None] is
    [nil]); the runtime bookkeeping fields of a message ([state],
    [sizeCache], [unknownFields]) are not read by the getters and are left
    out. *)
Module keyword_plan_keyword_service.

Section Messages.

(** [resources.KeywordPlanKeyword] and [fieldmaskpb.FieldMask], messages of
    other packages. *)
Variable KeywordPlanKeyword : Type.
Variable FieldMask : Type.

Record KeywordPlanKeywordOperation_Create : Type := mkCreate {
  Create : option KeywordPlanKeyword
}.

Record KeywordPlanKeywordOperation_Update : Type := mkUpdate {
  Update : option KeywordPlanKeyword
}.

Record KeywordPlanKeywordOperation_Remove : Type := mkRemove {
  Remove : string
}.

(** A non-nil value of the interface [isKeywordPlanKeywordOperation_Operation]:
    a pointer, itself possibly nil, to one of the three wrapper structs. *)
Inductive isKeywordPlanKeywordOperation_Operation : Type :=
  | ptr_Create (p : option KeywordPlanKeywordOperation_Create)
  | ptr_Update (p : option KeywordPlanKeywordOperation_Update)
  | ptr_Remove (p : option KeywordPlanKeywordOperation_Remove).

Record KeywordPlanKeywordOperation : Type := mkOperation {
  UpdateMask : option FieldMask;
  Operation : option isKeywordPlanKeywordOperation_Operation
}.

Definition GetUpdateMask (x : option KeywordPlanKeywordOperation) : option FieldMask :=
  match x with
  | Some x => UpdateMask x
  | None => None
  end.

Definition GetOperation (m : option KeywordPlanKeywordOperation)
  : option isKeywordPlanKeywordOperation_Operation :=
  match m with
  | Some m => Operation m
  | None => None
  end.

(** The type assertion succeeds on a pointer of the wrapper's type, nil or
    not; reading the field through a nil pointer panics. *)
Definition GetCreate (x : option KeywordPlanKeywordOperation)
  : go (option KeywordPlanKeyword) :=
  match GetOperation x with
  | Some (ptr_Create p) =>
      match p with
      | Some x => returns (Create x)
      | None => panics
      end
  | _ => returns None
  end.

Definition GetUpdate (x : option KeywordPlanKeywordOperation)
  : go (option KeywordPlanKeyword) :=
  match GetOperation x with
  | Some (ptr_Update p) =>
      match p with
      | Some x => returns (Update x)
      | None => panics
      end
  | _ => returns None
  end.

Definition GetRemove (x : option KeywordPlanKeywordOperation) : go string :=
  match GetOperation x with
  | Some (ptr_Remove p) =>
      match p with
      | Some x => returns (Remove x)
      | None => panics
      end
  | _ => returns ""
  end.

End Messages.

Arguments mkCreate {KeywordPlanKeyword} Create.
Arguments mkUpdate {KeywordPlanKeyword} Update.
Arguments ptr_Create {KeywordPlanKeyword} p.
Arguments ptr_Update {KeywordPlanKeyword} p.
Arguments ptr_Remove {KeywordPlanKeyword} p.
Arguments mkOperation {KeywordPlanKeyword FieldMask} UpdateMask Operation.
Arguments GetUpdateMask {KeywordPlanKeyword FieldMask} x.
Arguments GetOperation {KeywordPlanKeyword FieldMask} m.
Arguments GetCreate {KeywordPlanKeyword FieldMask} x.
Arguments GetUpdate {KeywordPlanKeyword FieldMask} x.
Arguments GetRemove {KeywordPlanKeyword FieldMask} x.

End keyword_plan_keyword_service.

(** Package [services] (googleads v5): the server side of [VideoService]. *)
Module video_service.

Definition codes_Unimplemented : Z := 12.

(** The errors that travel through the stubs: a [status.Errorf] value, or
    one made elsewhere. *)
Inductive rpc_error : Type :=
  | status_Errorf (code : Z) (msg : string)
  | other_error (msg : string).

Record GetVideoRequest : Type := mkGetVideoRequest {
  ResourceName : string
}.

Definition GetResourceName (x : option GetVideoRequest) : string :=
  match x with
  | Some x => ResourceName x
  | None => ""
  end.

Section Server.

(** [context.Context] and [resources.Video], types of other packages, and
    the state a server implementation or an interceptor can change. *)
Variable context_Context : Type.
Variable Video : Type.
Variable State : Type.

(** The [interface{}] values that pass through the handler: the untyped
    nil, a request pointer, a response pointer, or a value of another
    type. *)
Inductive any : Type :=
  | untyped_nil
  | ptr_GetVideoRequest (p : option GetVideoRequest)
  | ptr_Video (p : option Video)
  | other_value.

(** [VideoServiceServer]: an implementation of [GetVideo]. *)
Record VideoServiceServer : Type := mkServer {
  GetVideo : context_Context → option GetVideoRequest → State →
             go (State * (option Video * option rpc_error))
}.

Definition UnimplementedVideoServiceServer : VideoServiceServer :=
  mkServer (λ _ _ s,
    returns (s, (None, Some (status_Errorf codes_Unimplemented
                               "method GetVideo not implemented")))).

Record grpc_UnaryServerInfo : Type := mkInfo {
  Server : option VideoServiceServer;
  FullMethod : string
}.

Definition grpc_UnaryHandler : Type :=
  context_Context → any → State → go (State * (any * option rpc_error)).

Definition grpc_UnaryServerInterceptor : Type :=
  context_Context → any → grpc_UnaryServerInfo → grpc_UnaryHandler → State →
  go (State * (any * option rpc_error)).

(** The conversion of [GetVideo]'s result, a [resources.Video] pointer and
    an error, to the handler's [interface{}] and error. *)
Definition asInterface (r : go (State * (option Video * option rpc_error)))
  : go (State * (any * option rpc_error)) :=
  match r with
  | returns (s, (out, err)) => returns (s, (ptr_Video out, err))
  | panics => panics
  end.

(** The [dec] argument of a handler: a function that fills the fresh
    request and returns its error; like any Go function it may change the
    state or panic. *)
Definition decoder : Type :=
  GetVideoRequest → State → go (State * (GetVideoRequest * option rpc_error)).

(** [_VideoService_GetVideo_Handler].  [srv] is [None] for a value that does
    not implement [VideoServiceServer]; a nil [dec] and a nil [interceptor]
    are [None], and calling the nil [dec] panics. *)
Definition _VideoService_GetVideo_Handler (srv : option VideoServiceServer)
    (ctx : context_Context) (dec : option decoder)
    (interceptor : option grpc_UnaryServerInterceptor) (s : State)
  : go (State * (any * option rpc_error)) :=
  match dec with
  | None => panics
  | Some dec =>
      match dec (mkGetVideoRequest "") s with
      | panics => panics
      | returns (s, (in_, err)) =>
          match err with
          | Some err => returns (s, (untyped_nil, Some err))
          | None =>
              match interceptor with
              | None =>
                  match srv with
                  | Some server => asInterface (GetVideo server ctx (Some in_) s)
                  | None => panics
                  end
              | Some interceptor =>
                  let info :=
                    mkInfo srv
                      "/google.ads.googleads.v5.services.VideoService/GetVideo" in
                  let handler : grpc_UnaryHandler := λ ctx req s,
                    match srv with
                    | Some server =>
                        match req with
                        | ptr_GetVideoRequest p =>
                            asInterface (GetVideo server ctx p s)
                        | _ => panics
                        end
                    | None => panics
                    end in
                  interceptor ctx (ptr_GetVideoRequest (Some in_)) info handler s
              end
          end
      end
  end.

End Server.

Arguments untyped_nil {Video}.
Arguments ptr_GetVideoRequest {Video} p.
Arguments ptr_Video {Video} p.
Arguments other_value {Video}.
Arguments mkServer {context_Context Video State} GetVideo.
Arguments UnimplementedVideoServiceServer {context_Context Video State}.
Arguments _VideoService_GetVideo_Handler {context_Context Video State}
  srv ctx dec interceptor s.

End video_service.

(** ** Concrete machines, messages and servers, for running the model *)

Module more_fixtures.
Import gtld_update.

(** A machine on which every file can be opened and every [Write]
    completes. *)
Definition plainOS : OS :=
  mkOS {[ "out.go" := "package util"; "notes.txt" := "keep" ]} "" []
       (λ _, None) (λ _ _, None).

(** A machine on which no file can be opened for writing. *)
Definition readOnlyOS : OS :=
  mkOS {[ "out.go" := "package util" ]} "" []
       (λ _, Some (library_error "permission denied")) (λ _ _, None).

(** A machine whose standard output is a pipe that nobody reads. *)
Definition closedPipeOS : OS :=
  mkOS ∅ "" [] (λ _, None)
       (λ f _, match f with
               | os_Stdout => Some (0%nat, syscall_EPIPE)
               | os_Named _ => None
               end).

(** An entry for [aaa] that was never delegated. *)
Definition aaaUndelegated : GTLDPeriod := mkGTLDPeriod "aaa" "" "".

(** A formatter that rejects every text. *)
Definition rejectAll (src : string) : result string :=
  Err (library_error "expected declaration").

Import keyword_plan_keyword_service.

(** Keyword Plan keywords stand as their resource names, field masks as
    the unit. *)
Definition removeOperation : option (KeywordPlanKeywordOperation string unit) :=
  Some (mkOperation None
          (Some (ptr_Remove (Some (mkRemove "customers/1/keywordPlanKeywords/2"))))).

Definition createOperation : option (KeywordPlanKeywordOperation string unit) :=
  Some (mkOperation None
          (Some (ptr_Create (Some (mkCreate (Some "new keyword")))))).

Definition nilCreateOperation : option (KeywordPlanKeywordOperation string unit) :=
  Some (mkOperation None (Some (ptr_Create None))).

Import video_service.

(** A decoder that fills in a resource name, one that fails, an interceptor
    that forwards to its handler, and a server that counts its calls. *)
Definition decodeVideo7 : decoder nat :=
  λ in_ s, returns (s, (mkGetVideoRequest "customers/1/videos/7", None)).

Definition decodeFails : decoder nat :=
  λ in_ s, returns (S s, (in_, Some (other_error "unexpected EOF"))).

Definition decodePanics : decoder nat := λ in_ s, panics.

Definition forwarding : grpc_UnaryServerInterceptor unit string nat :=
  λ ctx req info handler s, handler ctx req s.

Definition countingServer : VideoServiceServer unit string nat :=
  mkServer (λ _ req s, returns (S s, (Some (GetResourceName req), None))).

End more_fixtures.

(** * Properties of the builder *)

Module gtld_update_spec.
Import gtld_update.

(** What [renderGTLDMap] does once [tldMap] is filled: execute the template
    on it, format the text and hand it to the writer in one [Write]. *)
Abbreviation emitted htmlEscaper format_Source tldMap writer :=
  (match gTLDMapTemplate_Execute htmlEscaper tldMap with
   | Err err => (writer, Some err)
   | Ok buf =>
       match format_Source buf with
       | Err err => (writer, Some err)
       | Ok formatted =>
           ((Write writer formatted).1, (Write writer formatted).2.2)
       end
   end).

(** The text of a map entry for [onion], byte for byte as the template
    spells it, with the given delegation date and an empty removal date. *)
Abbreviation onionLiteral delegationDate :=
  (tb +:+ dq +:+ "onion" +:+ dq +:+ ": {" +:+ nl +:+
   tb +:+ tb +:+ "GTLD: " +:+ dq +:+ "onion" +:+ dq +:+ "," +:+ nl +:+
   tb +:+ tb +:+ "DelegationDate: " +:+ dq +:+ delegationDate +:+ dq +:+ "," +:+ nl +:+
   tb +:+ tb +:+ "RemovalDate: " +:+ dq +:+ dq +:+ "," +:+ nl +:+
   tb +:+ "},").

Section BuilderProperties.

Context (httpClient_Get : string → result http_Response)
        (json_Unmarshal : string → result (list GTLDPeriod))
        (GTLDPeriodDateFormat : string)
        (time_Parse : string → string → option error)
        (strings_TrimSpace : string → string)
        (strings_Map_unicode_ToLower : string → string)
        (htmlEscaper : string → string)
        (format_Source : string → result string).

Local Abbreviation ToLower := (strings_ToLower strings_Map_unicode_ToLower).
Local Abbreviation skip := (skipLine strings_TrimSpace).
Local Abbreviation entryOf := (tldOf strings_Map_unicode_ToLower).
Local Abbreviation collect := (collectTLDs strings_TrimSpace strings_Map_unicode_ToLower).
Local Abbreviation tlds := (tldsOfBody strings_TrimSpace strings_Map_unicode_ToLower).
Local Abbreviation validate := (validateGTLDs GTLDPeriodDateFormat time_Parse).
Local Abbreviation fetch := (getData httpClient_Get).
Local Abbreviation emit tldMap writer :=
  (emitted htmlEscaper format_Source tldMap writer).
Local Abbreviation fetchGTLDs := (getGTLDData httpClient_Get json_Unmarshal).
Local Abbreviation fetchTLDs :=
  (getTLDData httpClient_Get strings_TrimSpace strings_Map_unicode_ToLower).
Local Abbreviation execTemplate := (gTLDMapTemplate_Execute htmlEscaper).
Local Abbreviation render :=
  (renderGTLDMap httpClient_Get json_Unmarshal GTLDPeriodDateFormat time_Parse
     strings_TrimSpace strings_Map_unicode_ToLower htmlEscaper format_Source).
Local Abbreviation renderBuffer :=
  (@renderGTLDMap httpClient_Get json_Unmarshal GTLDPeriodDateFormat time_Parse
     strings_TrimSpace strings_Map_unicode_ToLower htmlEscaper format_Source
     string bytes_Buffer "").
Local Abbreviation run :=
  (main httpClient_Get json_Unmarshal GTLDPeriodDateFormat time_Parse
     strings_TrimSpace strings_Map_unicode_ToLower htmlEscaper format_Source).

Local Abbreviation badDates := (gtld_update.badDates GTLDPeriodDateFormat time_Parse).
Local Abbreviation labelled k := (λ e : GTLDPeriod, GTLD e = k).

(** *** The loops as list functions *)

Lemma foldl_tldStep (lines : list string) (acc : list GTLDPeriod) :
  foldl (tldStep strings_TrimSpace strings_Map_unicode_ToLower) acc lines
  = acc ++ (entryOf <$> filter (λ l, skip l = false) lines).
Proof.
  revert acc. induction lines as [|l lines IH]; intros acc; simpl.
  - by rewrite app_nil_r.
  - rewrite IH. unfold tldStep. rewrite filter_cons.
    destruct (skip l) eqn:Hl.
    + rewrite decide_False by done. done.
    + rewrite decide_True by done. by rewrite fmap_cons, <- app_assoc.
Qed.

Lemma collect_filter (lines : list string) :
  collect lines = entryOf <$> filter (λ l, skip l = false) lines.
Proof. unfold collectTLDs. by rewrite foldl_tldStep. Qed.

Lemma elem_of_collect (e : GTLDPeriod) (lines : list string) :
  e ∈ collect lines ↔ ∃ l, l ∈ lines ∧ skip l = false ∧ e = entryOf l.
Proof.
  rewrite collect_filter, list_elem_of_fmap. split.
  - intros (l & -> & [Hs Hl]%list_elem_of_filter). eauto.
  - intros (l & Hl & Hs & ->). exists l. split; [done|].
    by apply list_elem_of_filter.
Qed.

Lemma foldl_delegatedStep (entries acc : list GTLDPeriod) :
  foldl delegatedStep acc entries
  = acc ++ filter (λ e, DelegationDate e ≠ "") entries.
Proof.
  revert acc. induction entries as [|e entries IH]; intros acc; simpl.
  - by rewrite app_nil_r.
  - rewrite IH. unfold delegatedStep. rewrite filter_cons.
    case_bool_decide as He.
    + rewrite decide_False by (intros ?; done). done.
    + rewrite decide_True by done. by rewrite <- app_assoc.
Qed.

Lemma delegatedGTLDs_filter (entries : list GTLDPeriod) :
  delegatedGTLDs entries = filter (λ e, DelegationDate e ≠ "") entries.
Proof. unfold delegatedGTLDs. by rewrite foldl_delegatedStep. Qed.

Lemma elem_of_delegatedGTLDs (e : GTLDPeriod) (entries : list GTLDPeriod) :
  e ∈ delegatedGTLDs entries ↔ DelegationDate e ≠ "" ∧ e ∈ entries.
Proof.
  rewrite delegatedGTLDs_filter.
  exact (list_elem_of_filter (λ x, DelegationDate x ≠ "") entries e).
Qed.

(** *** Validation *)

Lemma validateGTLDs_bad (entries : list GTLDPeriod) (gTLD : GTLDPeriod) :
  gTLD ∈ entries → badDates gTLD → ∃ err, validate entries = Some err.
Proof.
  intros Hin Hbad. induction entries as [|e entries IH]; [by inversion Hin|].
  simpl.
  destruct (time_Parse GTLDPeriodDateFormat (DelegationDate e)) as [err|] eqn:Hd;
    [by eauto|].
  destruct (time_Parse GTLDPeriodDateFormat (RemovalDate e)) as [err|] eqn:Hr.
  - case_bool_decide as Hne; [by eauto|].
    apply elem_of_cons in Hin as [->|Hin]; [|by apply IH].
    destruct Hbad as [Hbad|[Hbad _]]; [by rewrite Hd in Hbad|by destruct Hne].
  - apply elem_of_cons in Hin as [->|Hin]; [|by apply IH].
    destruct Hbad as [Hbad|[_ Hbad]]; [by rewrite Hd in Hbad|by rewrite Hr in Hbad].
Qed.

Lemma validateGTLDs_ok (entries : list GTLDPeriod) :
  validate entries = None ↔ Forall (λ e, ¬ badDates e) entries.
Proof.
  split.
  - intros Hv. apply Forall_forall. intros e He Hbad.
    destruct (validateGTLDs_bad entries e He Hbad) as [err Herr]. congruence.
  - induction 1 as [|e entries He _ IH]; [done|]. simpl.
    destruct (time_Parse GTLDPeriodDateFormat (DelegationDate e)) as [err|] eqn:Hd.
    { destruct He. left. by rewrite Hd. }
    destruct (time_Parse GTLDPeriodDateFormat (RemovalDate e)) as [err|] eqn:Hr; [|done].
    case_bool_decide as Hne; [|done].
    destruct He. right. split; [done|]. by rewrite Hr.
Qed.

(** *** The merge *)

Local Abbreviation table sourceA body :=
  (buildTLDMap (delegatedGTLDs sourceA) (tlds body)).

Lemma foldl_dedupStep_lookup (entries : list GTLDPeriod)
    (m : gmap string GTLDPeriod) (k : string) :
  foldl dedupStep m entries !! k
  = match last (filter (labelled k) entries) with
    | Some e => Some e
    | None => m !! k
    end.
Proof.
  revert m. induction entries as [|e entries IH]; intros m; simpl; [done|].
  rewrite IH, filter_cons. unfold dedupStep. case_decide as Hk.
  - rewrite last_cons. destruct (last _); [done|].
    by rewrite <- Hk, lookup_insert_eq.
  - destruct (last _); [done|]. by rewrite lookup_insert_ne.
Qed.

Lemma foldl_populateStep_lookup (entries : list GTLDPeriod)
    (m : gmap string GTLDPeriod) (k : string) :
  foldl populateStep m entries !! k
  = match m !! k with
    | Some v => Some v
    | None => head (filter (labelled k) entries)
    end.
Proof.
  revert m. induction entries as [|e entries IH]; intros m; simpl.
  - by destruct (m !! k).
  - rewrite IH, filter_cons. unfold populateStep.
    destruct (m !! GTLD e) as [v|] eqn:He; case_decide as Hk; subst.
    + by rewrite He.
    + done.
    + by rewrite lookup_insert_eq, He.
    + by rewrite lookup_insert_ne.
Qed.

Lemma buildTLDMap_lookup (delegated allTLDs : list GTLDPeriod) (k : string) :
  buildTLDMap delegated allTLDs !! k
  = match last (filter (labelled k) delegated) with
    | Some a => Some a
    | None => head (filter (labelled k) allTLDs)
    end.
Proof.
  unfold buildTLDMap.
  rewrite foldl_populateStep_lookup, foldl_dedupStep_lookup, lookup_empty.
  by destruct (last _).
Qed.

Lemma label_elem_of (entries : list GTLDPeriod) (k : string) :
  k ∈ GTLD <$> entries ↔ is_Some (last (filter (labelled k) entries)).
Proof.
  rewrite last_is_Some, list_elem_of_fmap. split.
  - intros (e & -> & He) Hnil.
    assert (e ∈ filter (labelled (GTLD e)) entries) as Hin
      by (by apply list_elem_of_filter).
    rewrite Hnil in Hin. by inversion Hin.
  - intros Hne. destruct (filter (labelled k) entries) as [|e l] eqn:Hf; [done|].
    assert (e ∈ filter (labelled k) entries) as [Hk He]%list_elem_of_filter
      by (rewrite Hf; left).
    eauto.
Qed.

Lemma label_not_elem_of (entries : list GTLDPeriod) (k : string) :
  k ∉ GTLD <$> entries ↔ last (filter (labelled k) entries) = None.
Proof. rewrite label_elem_of, eq_None_not_Some. done. Qed.

Lemma head_last_constant {A : Type} (x : A) (l : list A) :
  Forall (λ y, y = x) l → head l = last l.
Proof.
  intros Hall. destruct l as [|y l]; [done|].
  destruct (last (y :: l)) as [z|] eqn:Hz.
  - apply last_Some_elem_of in Hz.
    rewrite Forall_forall in Hall. simpl.
    by rewrite (Hall y), (Hall z) by (done || left).
  - by apply last_None in Hz.
Qed.

(** Two entries that [getTLDData] builds for one label are the same
    record. *)
Lemma collect_same_label (lines : list string) (k : string) :
  Forall (λ e, e = mkGTLDPeriod k "1985-01-01" "")
         (filter (labelled k) (collect lines)).
Proof.
  apply Forall_forall. intros e [Hk He]%list_elem_of_filter.
  apply elem_of_collect in He as (l & _ & _ & ->).
  unfold tldOf in *. simpl in Hk. by rewrite Hk.
Qed.

Lemma table_lookup (sourceA : list GTLDPeriod) (body k : string) :
  table sourceA body !! k
  = match last (filter (labelled k) (delegatedGTLDs sourceA)) with
    | Some a => Some a
    | None => last (filter (labelled k) (tlds body))
    end.
Proof.
  rewrite buildTLDMap_lookup. destruct (last _); [done|].
  unfold tldsOfBody. apply head_last_constant with (x := mkGTLDPeriod k "1985-01-01" "").
  apply collect_same_label.
Qed.

(** *** The pipeline *)

(** [renderGTLDMap] on any writer does what it does on an empty
    [bytes.Buffer] (which never fails) up to the one [Write] at its end. *)
Lemma render_factors {W : Type} `{!io_Writer W} (writer : W) :
  render writer
  = match renderBuffer with
    | (_, Some err) => (writer, Some err)
    | (formatted, None) =>
        let '(writer', (_, err)) := Write writer formatted in (writer', err)
    end.
Proof.
  unfold renderGTLDMap.
  destruct fetchGTLDs as [allGTLDs|err]; [|done].
  destruct (validate _) as [err|]; [done|].
  destruct fetchTLDs as [allTLDs|err]; [|done].
  destruct (execTemplate _) as [buf|err]; [|done].
  destruct (format_Source buf) as [formatted|err]; [|done].
  done.
Qed.

(** C2: when some retained (delegated) Source A entry has a delegation
    date that does not parse, or a non-empty removal date that does not
    parse, [renderGTLDMap] returns an error and hands the writer back as it
    received it: [Write] is not called, on any writer. *)
Theorem validation_failure_writes_nothing {W : Type} `{!io_Writer W} (writer : W)
    (allGTLDs : list GTLDPeriod) (gTLD : GTLDPeriod) :
  fetchGTLDs = Ok allGTLDs →
  gTLD ∈ allGTLDs →
  DelegationDate gTLD ≠ "" →
  time_Parse GTLDPeriodDateFormat (DelegationDate gTLD) ≠ None
  ∨ (RemovalDate gTLD ≠ ""
     ∧ time_Parse GTLDPeriodDateFormat (RemovalDate gTLD) ≠ None) →
  ∃ err, render writer = (writer, Some err).
Proof.
  intros Hfetch Hin Hdel Hbad.
  assert (gTLD ∈ delegatedGTLDs allGTLDs) as Hret
    by (by apply elem_of_delegatedGTLDs).
  destruct (validateGTLDs_bad _ _ Hret Hbad) as [err Herr].
  exists err. unfold renderGTLDMap. by rewrite Hfetch, Herr.
Qed.

(** When both feeds arrive and Source A validates, [getTLDData] returns the
    entries of the kept lines and [renderGTLDMap] renders the map its two
    loops build from the delegated Source A entries and those entries. *)
Lemma render_reaches_merge {W : Type} `{!io_Writer W} (writer : W)
    (sourceA : list GTLDPeriod) (body : string) :
  fetchGTLDs = Ok sourceA →
  validate (delegatedGTLDs sourceA) = None →
  fetch ICANN_TLDS = Ok body →
  fetchTLDs = Ok (tlds body)
  ∧ render writer = emit (table sourceA body) writer.
Proof.
  intros HA Hvalid HB.
  assert (fetchTLDs = Ok (tlds body)) as HTLDs
    by (unfold getTLDData; by rewrite HB).
  split; [done|]. unfold renderGTLDMap. rewrite HA, Hvalid, HTLDs.
  destruct (execTemplate _) as [buf|err]; [|done].
  destruct (format_Source buf) as [formatted|err]; [|done].
  by destruct (Write writer formatted) as [w [n e]].
Qed.

Lemma skip_false_iff (line : string) :
  skip line = false ↔
  ¬ (strings_TrimSpace line = "" ∨ strings_HasPrefix line "#" = true).
Proof.
  unfold skipLine. rewrite orb_false_iff, bool_decide_eq_false. split.
  - intros [Hb Hp] [?|Hp']; [done|]. by rewrite Hp in Hp'.
  - intros Hkeep. split; [intros ?; apply Hkeep; by left|].
    destruct (strings_HasPrefix line "#"); [|done]. destruct Hkeep. by right.
Qed.

(** C3, as the code has it: on feeds for which the build reaches the merge,
    the map [renderGTLDMap] renders gives every label that is the label of a
    delegated Source A entry Source A's record, the last delegated entry
    with that label; so a kept Source B line whose lower-cased form is such
    a label does not get its entry inserted.  A record under a key that no
    delegated Source A entry has comes from a kept Source B line, lowered.
    Source A's labels are compared as the feed spells them. *)
Theorem source_A_takes_precedence {W : Type} `{!io_Writer W} (writer : W)
    (sourceA : list GTLDPeriod) (body : string) :
  fetchGTLDs = Ok sourceA →
  validate (delegatedGTLDs sourceA) = None →
  fetch ICANN_TLDS = Ok body →
  ∃ tldMap,
    render writer = emit tldMap writer
    ∧ (∀ line a, line ∈ strings_Split body newline → skip line = false →
         a ∈ sourceA → DelegationDate a ≠ "" → GTLD a = ToLower line →
         ∃ a', tldMap !! ToLower line = Some a'
               ∧ last (filter (labelled (ToLower line)) (delegatedGTLDs sourceA))
                 = Some a'
               ∧ a' ∈ sourceA ∧ DelegationDate a' ≠ "" ∧ GTLD a' = ToLower line)
    ∧ (∀ k a, last (filter (labelled k) (delegatedGTLDs sourceA)) = Some a →
              tldMap !! k = Some a)
    ∧ (∀ k v, tldMap !! k = Some v → k ∉ GTLD <$> delegatedGTLDs sourceA →
         ∃ line, line ∈ strings_Split body newline ∧ skip line = false
                 ∧ k = ToLower line ∧ v = entryOf line).
Proof.
  intros HA Hvalid HB.
  destruct (render_reaches_merge writer sourceA body HA Hvalid HB) as [_ Hrender].
  exists (table sourceA body). split_and!; [done| | |].
  - intros line a Hline Hs Ha Hd Hk.
    assert (is_Some (last (filter (labelled (ToLower line)) (delegatedGTLDs sourceA))))
      as [a' Ha'].
    { apply label_elem_of, list_elem_of_fmap. exists a. split; [done|].
      by apply elem_of_delegatedGTLDs. }
    exists a'. rewrite table_lookup, Ha'. split_and!; [done..| | |].
    all: apply last_Some_elem_of, list_elem_of_filter in Ha'
           as [Hk' [Hd' Hin]%elem_of_delegatedGTLDs]; done.
  - intros k a Ha. by rewrite table_lookup, Ha.
  - intros k v. rewrite table_lookup. intros Hv Habsent%label_not_elem_of.
    rewrite Habsent in Hv.
    apply last_Some_elem_of, list_elem_of_filter in Hv as [Hk Hin].
    apply elem_of_collect in Hin as (line & Hline & Hs & ->).
    exists line. by rewrite <- Hk.
Qed.

(** C5: on feeds for which the build reaches the merge, the entries
    [getTLDData] returns are exactly the entries of the lines that are
    neither blank nor start with [#], so a blank or [#] line gives no entry;
    and for every other line whose lower-cased label is not the label of a
    delegated Source A entry, the map [renderGTLDMap] renders has an entry
    with delegation date 1985-01-01 and an empty removal date. *)
Theorem source_B_default_fill {W : Type} `{!io_Writer W} (writer : W)
    (sourceA : list GTLDPeriod) (body : string) :
  fetchGTLDs = Ok sourceA →
  validate (delegatedGTLDs sourceA) = None →
  fetch ICANN_TLDS = Ok body →
  ∃ allTLDs tldMap,
    fetchTLDs = Ok allTLDs
    ∧ render writer = emit tldMap writer
    ∧ (∀ e, e ∈ allTLDs ↔
         ∃ line, line ∈ strings_Split body newline
                 ∧ ¬ (strings_TrimSpace line = "" ∨ strings_HasPrefix line "#" = true)
                 ∧ e = {| GTLD := ToLower line;
                          DelegationDate := "1985-01-01";
                          RemovalDate := "" |})
    ∧ (∀ k v, tldMap !! k = Some v → k ∉ GTLD <$> delegatedGTLDs sourceA →
         ∃ line, line ∈ strings_Split body newline
                 ∧ ¬ (strings_TrimSpace line = "" ∨ strings_HasPrefix line "#" = true)
                 ∧ k = ToLower line
                 ∧ v = {| GTLD := ToLower line;
                          DelegationDate := "1985-01-01";
                          RemovalDate := "" |})
    ∧ (∀ line, line ∈ strings_Split body newline →
         ¬ (strings_TrimSpace line = "" ∨ strings_HasPrefix line "#" = true) →
         ToLower line ∉ GTLD <$> delegatedGTLDs sourceA →
         tldMap !! ToLower line
         = Some {| GTLD := ToLower line;
                   DelegationDate := "1985-01-01";
                   RemovalDate := "" |}).
Proof.
  intros HA Hvalid HB.
  destruct (render_reaches_merge writer sourceA body HA Hvalid HB) as [HTLDs Hrender].
  exists (tlds body), (table sourceA body). split_and!; [done|done| | |].
  - intros e. unfold tldsOfBody. rewrite elem_of_collect.
    by setoid_rewrite skip_false_iff.
  - intros k v. rewrite table_lookup. intros Hv Habsent%label_not_elem_of.
    rewrite Habsent in Hv.
    apply last_Some_elem_of, list_elem_of_filter in Hv as [Hk Hin].
    apply elem_of_collect in Hin as (line & Hline & Hs%skip_false_iff & ->).
    exists line. by rewrite <- Hk.
  - intros line Hline Hkeep%skip_false_iff Habsent%label_not_elem_of.
    rewrite table_lookup, Habsent.
    assert (is_Some (last (filter (labelled (ToLower line)) (tlds body)))) as [b Hb].
    { apply label_elem_of, list_elem_of_fmap. exists (entryOf line).
      split; [done|]. apply elem_of_collect. eauto. }
    rewrite Hb. f_equal. apply last_Some_elem_of in Hb.
    by rewrite (proj1 (Forall_forall _ _) (collect_same_label _ (ToLower line)) b Hb).
Qed.

Lemma append_empty_r (s : string) : s +:+ "" = s.
Proof.
  induction s as [|c s IH]; [done|].
  change (String c (s +:+ "") = String c s). by rewrite IH.
Qed.

Lemma append_assoc (s1 s2 s3 : string) : (s1 +:+ s2) +:+ s3 = s1 +:+ s2 +:+ s3.
Proof.
  induction s1 as [|c s1 IH]; [done|].
  change (String c ((s1 +:+ s2) +:+ s3) = String c (s1 +:+ s2 +:+ s3)).
  by rewrite IH.
Qed.

Lemma concat_cons (x : string) (xs : list string) :
  String.concat "" (x :: xs) = x +:+ String.concat "" xs.
Proof. destruct xs as [|y xs]; [by rewrite append_empty_r|done]. Qed.

Lemma concat_elem_of (x : string) (xs : list string) :
  x ∈ xs → ∃ before after, String.concat "" xs = before +:+ x +:+ after.
Proof.
  induction 1 as [x xs|x y xs _ (before & after & IH)]; rewrite concat_cons.
  - by exists "", (String.concat "" xs).
  - exists (y +:+ before), after. by rewrite IH, append_assoc.
Qed.

Lemma elem_of_rangeGTLDs (GTLDs : gmap string GTLDPeriod) (v : GTLDPeriod) :
  v ∈ rangeGTLDs GTLDs ↔ ∃ k, GTLDs !! k = Some v.
Proof.
  unfold rangeGTLDs. rewrite list_elem_of_fmap. split.
  - intros ([k v'] & -> & Hin). rewrite merge_sort_Permutation in Hin.
    apply elem_of_map_to_list in Hin. eauto.
  - intros [k Hk]. exists (k, v). split; [done|].
    rewrite merge_sort_Permutation. by apply elem_of_map_to_list.
Qed.

(** The text the template puts after the [range] block is, byte for byte,
    the comment, the literal entry for [onion] and the closing brace. *)
Lemma templateFooter_text :
  templateFooter
  = nl +:+ onionComment +:+ nl +:+ onionLiteral "2015-02-18" +:+ nl +:+ "}" +:+ nl.
Proof. vm_compute. reflexivity. Qed.


(** C7, as the code has it: on feeds for which the build reaches the merge,
    the map [renderGTLDMap] renders keeps, for a label of Source A, the last
    entry with that label among the delegated entries (the entries with an
    empty delegation date are dropped before the map is filled); and for a
    label that no delegated Source A entry has, it keeps the first Source B
    entry with that label, which is equal to the last one. *)
Theorem duplicates_keep_last {W : Type} `{!io_Writer W} (writer : W)
    (sourceA : list GTLDPeriod) (body : string) :
  fetchGTLDs = Ok sourceA →
  validate (delegatedGTLDs sourceA) = None →
  fetch ICANN_TLDS = Ok body →
  ∃ allTLDs tldMap,
    fetchTLDs = Ok allTLDs
    ∧ render writer = emit tldMap writer
    ∧ (∀ label a,
         last (filter (labelled label) (filter (λ e, DelegationDate e ≠ "") sourceA))
         = Some a →
         tldMap !! label = Some a)
    ∧ (∀ label b, label ∉ GTLD <$> delegatedGTLDs sourceA →
         last (filter (labelled label) allTLDs) = Some b →
         tldMap !! label = Some b
         ∧ head (filter (labelled label) allTLDs) = Some b).
Proof.
  intros HA Hvalid HB.
  destruct (render_reaches_merge writer sourceA body HA Hvalid HB) as [HTLDs Hrender].
  exists (tlds body), (table sourceA body). split_and!; [done|done| |].
  - intros label a. rewrite <- delegatedGTLDs_filter. intros Ha.
    by rewrite table_lookup, Ha.
  - intros label b Habsent%label_not_elem_of Hb. split.
    + by rewrite table_lookup, Habsent.
    + rewrite <- Hb. unfold tldsOfBody.
      apply head_last_constant with (x := mkGTLDPeriod label "1985-01-01" "").
      apply collect_same_label.
Qed.

(** *** Letter case *)

Lemma lowerByte_not_upper (c : ascii) : isUpperByte (lowerByte c) = false.
Proof. by destruct c as [[] [] [] [] [] [] [] []]. Qed.

Lemma mapBytes_lowerByte_not_upper (s : string) :
  anyByte isUpperByte (mapBytes lowerByte s) = false.
Proof.
  induction s as [|c s IH]; [done|]. simpl.
  by rewrite lowerByte_not_upper, IH.
Qed.

Lemma ToLower_ascii_not_upper (s : string) :
  allBytes isASCIIByte s = true → anyByte isUpperByte (ToLower s) = false.
Proof.
  intros Hascii. unfold strings_ToLower. rewrite Hascii.
  destruct (anyByte isUpperByte s) eqn:Hup; simpl; [|done].
  apply mapBytes_lowerByte_not_upper.
Qed.

(** C8, as the code has it: a key of the table is either the label of a
    delegated Source A entry, spelled as the feed spells it, or the
    [strings.ToLower] form of a kept Source B line, which for an ASCII line
    has no upper-case letter; the merge compares the lowered Source B label
    with the Source A labels byte for byte, so a Source B line in any
    letter case falls onto Source A's entry when Source A spells the label
    in lower case. *)
Theorem keys_lowered_from_source_B_only (sourceA : list GTLDPeriod) (body : string) :
  (∀ k v, table sourceA body !! k = Some v →
     (v ∈ sourceA ∧ DelegationDate v ≠ "" ∧ GTLD v = k)
     ∨ (∃ line, line ∈ strings_Split body newline ∧ skip line = false
                ∧ k = ToLower line ∧ v = entryOf line))
  ∧ (∀ line, allBytes isASCIIByte line = true →
             anyByte isUpperByte (ToLower line) = false)
  ∧ (∀ line a, line ∈ strings_Split body newline → skip line = false →
               a ∈ sourceA → DelegationDate a ≠ "" → GTLD a = ToLower line →
               ∃ a', table sourceA body !! ToLower line = Some a'
                     ∧ a' ∈ sourceA ∧ DelegationDate a' ≠ ""
                     ∧ GTLD a' = ToLower line).
Proof.
  split_and!.
  - intros k v. rewrite table_lookup.
    destruct (last (filter (labelled k) (delegatedGTLDs sourceA))) as [a|] eqn:Ha.
    + intros [= <-]. left.
      apply last_Some_elem_of, list_elem_of_filter in Ha
        as [Hk [Hd Hin]%elem_of_delegatedGTLDs].
      done.
    + intros Hv. right.
      apply last_Some_elem_of, list_elem_of_filter in Hv as [Hk Hin].
      apply elem_of_collect in Hin as (line & Hline & Hs & ->).
      exists line. by rewrite <- Hk.
  - apply ToLower_ascii_not_upper.
  - intros line a Hline Hs Ha Hd Hk.
    assert (is_Some (last (filter (labelled (ToLower line)) (delegatedGTLDs sourceA))))
      as [a' Ha'].
    { apply label_elem_of, list_elem_of_fmap. exists a. split; [done|].
      by apply elem_of_delegatedGTLDs. }
    exists a'. rewrite table_lookup, Ha'. split; [done|].
    apply last_Some_elem_of, list_elem_of_filter in Ha'
      as [Hk' [Hd' Hin]%elem_of_delegatedGTLDs].
    done.
Qed.

(** *** The output file *)

(** C10, as the code has it: with an explicit file name that
    [os.OpenFile] accepts, the file is truncated before [renderGTLDMap]
    runs, so its earlier contents are gone after every failing run.  When
    the failure comes before the [Write] (fetch, decode, validation,
    template or formatting) the file is left empty; when the [Write] itself
    fails the file holds the bytes that [Write] took before the error. *)
Theorem failed_run_leaves_truncated_file (filename : string) (rest : list string)
    (os : OS) :
  open_error os filename = None →
  (∀ out err, renderBuffer = (out, Some err) →
     (run (filename :: rest) os).2 = 1
     ∧ files (run (filename :: rest) os).1 !! filename = Some "")
  ∧ (∀ formatted n err, renderBuffer = (formatted, None) →
     write_fault os (os_Named filename) formatted = Some (n, err) →
     (run (filename :: rest) os).2 = 1
     ∧ files (run (filename :: rest) os).1 !! filename
       = Some (takeBytes n formatted)).
Proof.
  intros Hopen. split.
  - intros out err Hbuf. unfold main, os_OpenFile_create_trunc.
    rewrite Hopen, render_factors, Hbuf. simpl.
    by rewrite lookup_insert_eq.
  - intros formatted n err Hbuf Hfault. unfold main, os_OpenFile_create_trunc.
    rewrite Hopen, render_factors, Hbuf.
    unfold Write, os_File_Writer. simpl. rewrite Hfault. simpl.
    by rewrite !lookup_insert_eq.
Qed.

(** *** Further properties of the builder *)

(** X1: [getData] returns a body exactly when the request succeeds, the
    status is 200 and the body can be read; every error it returns names
    the URL and is one of the three failures, a status other than 200 being
    an error even when the body is readable. *)
Theorem getData_result (url : string) :
  (∀ body, fetch url = Ok body ↔
     ∃ resp, httpClient_Get url = Ok resp
             ∧ StatusCode resp = http_StatusOK ∧ Body resp = Ok body)
  ∧ (∀ err, fetch url = Err err →
       (∃ cause, httpClient_Get url = Err cause ∧ err = unable_to_fetch url cause)
       ∨ (∃ resp, httpClient_Get url = Ok resp ∧ StatusCode resp ≠ http_StatusOK
                  ∧ err = unexpected_status url http_StatusOK (StatusCode resp))
       ∨ (∃ resp cause, httpClient_Get url = Ok resp
                        ∧ StatusCode resp = http_StatusOK
                        ∧ Body resp = Err cause
                        ∧ err = error_reading_body url cause)).
Proof.
  unfold getData. split.
  - intros body. split.
    + destruct (httpClient_Get url) as [resp|cause]; [|done].
      destruct (StatusCode resp =? http_StatusOK) eqn:Hcode; [|done]. simpl.
      apply Z.eqb_eq in Hcode.
      destruct (Body resp) as [b|cause] eqn:Hbody; [|done].
      intros [= <-]. eauto.
    + intros (resp & -> & Hcode & Hbody).
      by rewrite Hcode, Z.eqb_refl, Hbody.
  - intros err.
    destruct (httpClient_Get url) as [resp|cause].
    + destruct (StatusCode resp =? http_StatusOK) eqn:Hcode; simpl.
      * apply Z.eqb_eq in Hcode.
        destruct (Body resp) as [b|cause] eqn:Hbody; [done|].
        intros [= <-]. right. right. eauto 10.
      * apply Z.eqb_neq in Hcode. intros [= <-]. right. left. eauto.
    + intros [= <-]. left. eauto.
Qed.

(** X2: [delegatedGTLDs] returns its input with the entries whose
    delegation date is empty taken out and nothing else changed: every other
    entry stays, as often as it occurs and in the order of the input.  So it
    goes through a concatenation piece by piece, and filtering a second time
    changes nothing. *)
Theorem delegatedGTLDs_keeps_delegated (entries : list GTLDPeriod) :
  delegatedGTLDs entries = filter (λ e, DelegationDate e ≠ "") entries
  ∧ (∀ more, delegatedGTLDs (entries ++ more)
             = delegatedGTLDs entries ++ delegatedGTLDs more)
  ∧ delegatedGTLDs (delegatedGTLDs entries) = delegatedGTLDs entries.
Proof.
  split_and!.
  - apply delegatedGTLDs_filter.
  - intros more. rewrite !delegatedGTLDs_filter. apply filter_app.
  - rewrite !delegatedGTLDs_filter.
    induction entries as [|e entries IH]; [done|].
    rewrite filter_cons. case_decide as He; [|done].
    rewrite filter_cons, decide_True by done. by rewrite IH.
Qed.

(** X3: [validateGTLDs] returns nil exactly when every entry has a
    delegation date that parses and a removal date that is empty or
    parses. *)
Theorem validateGTLDs_nil_iff (entries : list GTLDPeriod) :
  validate entries = None ↔
  ∀ e, e ∈ entries →
    time_Parse GTLDPeriodDateFormat (DelegationDate e) = None
    ∧ (RemovalDate e = ""
       ∨ time_Parse GTLDPeriodDateFormat (RemovalDate e) = None).
Proof.
  rewrite validateGTLDs_ok, Forall_forall. unfold gtld_update.badDates.
  split; intros Hall e He; specialize (Hall e He).
  - split.
    + destruct (time_Parse _ (DelegationDate e)) eqn:Hd; [|done].
      destruct Hall. by left.
    + destruct (decide (RemovalDate e = "")) as [|Hne]; [by left|right].
      destruct (time_Parse _ (RemovalDate e)) eqn:Hr; [|done].
      destruct Hall. right. by split.
  - destruct Hall as [Hd Hr]. intros [Hbad|[Hne Hbad]]; [done|].
    by destruct Hr.
Qed.

(** X4: the error [validateGTLDs] returns is the parse error of the first
    entry, in list order, that fails: the error of its delegation date, or,
    when that date parses, of its non-empty removal date.  Every entry before
    it is valid. *)
Theorem validateGTLDs_first_error (entries : list GTLDPeriod) (err : error) :
  validate entries = Some err →
  ∃ before gTLD after,
    entries = before ++ gTLD :: after
    ∧ validate before = None
    ∧ (time_Parse GTLDPeriodDateFormat (DelegationDate gTLD) = Some err
       ∨ (time_Parse GTLDPeriodDateFormat (DelegationDate gTLD) = None
          ∧ RemovalDate gTLD ≠ ""
          ∧ time_Parse GTLDPeriodDateFormat (RemovalDate gTLD) = Some err)).
Proof.
  induction entries as [|e entries IH]; [done|]. simpl.
  destruct (time_Parse GTLDPeriodDateFormat (DelegationDate e)) as [err'|] eqn:Hd.
  { intros [= ->]. exists [], e, entries. eauto. }
  destruct (time_Parse GTLDPeriodDateFormat (RemovalDate e)) as [err'|] eqn:Hr.
  - case_bool_decide as Hne.
    + intros [= ->]. exists [], e, entries. eauto 10.
    + intros (before & g & after & -> & Hbefore & Hg)%IH.
      exists (e :: before), g, after. split_and!; [done| |done].
      simpl. rewrite Hd, Hr.
      by rewrite bool_decide_false by (intros Hx; by destruct Hx).
  - intros (before & g & after & -> & Hbefore & Hg)%IH.
    exists (e :: before), g, after. split_and!; [done| |done].
    simpl. by rewrite Hd, Hr.
Qed.

(** X5: as the comment of [validateGTLDs] says, an entry with an empty
    delegation date is an error: when [time.Parse] rejects the empty string,
    a list that still holds an undelegated entry does not validate. *)
Theorem validateGTLDs_rejects_undelegated (entries : list GTLDPeriod)
    (gTLD : GTLDPeriod) :
  time_Parse GTLDPeriodDateFormat "" ≠ None →
  gTLD ∈ entries →
  DelegationDate gTLD = "" →
  validate entries ≠ None.
Proof.
  intros Hempty Hin Hd Hv.
  destruct (validateGTLDs_bad entries gTLD Hin) as [err Herr]; [|congruence].
  left. by rewrite Hd.
Qed.

(** X6: when the default date 1985-01-01 parses and the delegated Source A
    entries validate, every record of the merged table has a delegation date
    that parses and a removal date that is empty or parses: the entries
    taken from Source B need no validation of their own. *)
Theorem merged_table_has_valid_dates (sourceA : list GTLDPeriod) (body : string) :
  time_Parse GTLDPeriodDateFormat "1985-01-01" = None →
  validate (delegatedGTLDs sourceA) = None →
  ∀ k v, table sourceA body !! k = Some v →
    time_Parse GTLDPeriodDateFormat (DelegationDate v) = None
    ∧ (RemovalDate v = ""
       ∨ time_Parse GTLDPeriodDateFormat (RemovalDate v) = None).
Proof.
  intros Hdefault Hvalid k v. rewrite table_lookup.
  destruct (last (filter (labelled k) (delegatedGTLDs sourceA))) as [a|] eqn:Ha.
  - intros [= <-]. apply last_Some_elem_of, list_elem_of_filter in Ha as [_ Ha].
    rewrite validateGTLDs_ok, Forall_forall in Hvalid.
    specialize (Hvalid a Ha). unfold gtld_update.badDates in Hvalid. split.
    + destruct (time_Parse _ (DelegationDate a)); [|done]. destruct Hvalid. by left.
    + destruct (decide (RemovalDate a = "")) as [|Hne]; [by left|right].
      destruct (time_Parse _ (RemovalDate a)); [|done].
      destruct Hvalid. right. by split.
  - intros Hv. apply last_Some_elem_of, list_elem_of_filter in Hv as [_ Hv].
    apply elem_of_collect in Hv as (line & _ & _ & ->). simpl. auto.
Qed.

Lemma table_lookup_label (sourceA : list GTLDPeriod) (body k : string)
    (v : GTLDPeriod) :
  table sourceA body !! k = Some v → GTLD v = k.
Proof.
  rewrite table_lookup.
  destruct (last (filter (labelled k) (delegatedGTLDs sourceA))) as [a|] eqn:Ha.
  - intros [= <-].
    by apply last_Some_elem_of, list_elem_of_filter in Ha as [? _].
  - intros Hv. by apply last_Some_elem_of, list_elem_of_filter in Hv as [? _].
Qed.

(** X7: the table has an entry for exactly the labels of the delegated
    Source A entries and of the kept Source B lines, and every record is
    stored under its own [GTLD] field. *)
Theorem table_labels (sourceA : list GTLDPeriod) (body k : string) :
  (is_Some (table sourceA body !! k) ↔
     k ∈ GTLD <$> delegatedGTLDs sourceA ∨ k ∈ GTLD <$> tlds body)
  ∧ (∀ v, table sourceA body !! k = Some v → GTLD v = k).
Proof.
  rewrite table_lookup, !label_elem_of. split.
  - destruct (last (filter (labelled k) (delegatedGTLDs sourceA))) as [a|].
    + split; [intros _; left; eauto|eauto].
    + split; [by right|]. intros [[? ?]|?]; done.
  - intros v Hv. apply (table_lookup_label sourceA body). by rewrite table_lookup.
Qed.

Lemma last_collect_label (lines : list string) (k : string) (v : GTLDPeriod) :
  last (filter (labelled k) (collect lines)) = Some v ↔
  v = mkGTLDPeriod k "1985-01-01" ""
  ∧ ∃ l, l ∈ lines ∧ skip l = false ∧ ToLower l = k.
Proof.
  split.
  - intros Hv. apply last_Some_elem_of in Hv.
    pose proof (proj1 (Forall_forall _ _) (collect_same_label lines k) v Hv) as ->.
    split; [done|].
    apply list_elem_of_filter in Hv as [_ Hv].
    apply elem_of_collect in Hv as (l & Hl & Hs & [= Hk]). eauto.
  - intros (-> & l & Hl & Hs & Hk).
    assert (is_Some (last (filter (labelled k) (collect lines)))) as [v Hv].
    { apply label_elem_of, list_elem_of_fmap. exists (entryOf l).
      split; [by rewrite <- Hk|]. apply elem_of_collect. eauto. }
    rewrite Hv. f_equal. apply last_Some_elem_of in Hv.
    exact (proj1 (Forall_forall _ _) (collect_same_label lines k) v Hv).
Qed.

(** X8: the table does not depend on the order of the Source B lines nor on
    how often a line is repeated: two line lists with the same lines give
    the same table. *)
Theorem source_B_order_irrelevant (sourceA : list GTLDPeriod)
    (lines1 lines2 : list string) :
  (∀ l, l ∈ lines1 ↔ l ∈ lines2) →
  buildTLDMap (delegatedGTLDs sourceA) (collect lines1)
  = buildTLDMap (delegatedGTLDs sourceA) (collect lines2).
Proof.
  intros Hsame. apply map_eq. intros k. rewrite !buildTLDMap_lookup.
  destruct (last (filter (labelled k) (delegatedGTLDs sourceA))); [done|].
  rewrite !(head_last_constant (mkGTLDPeriod k "1985-01-01" ""))
    by apply collect_same_label.
  apply option_eq. intros v. rewrite !last_collect_label.
  by setoid_rewrite Hsame.
Qed.

(** X9: the empty feeds.  When [strings.TrimSpace] of the empty string is
    empty, an empty Source B body adds nothing, so the table is what the
    Source A loop built; and with no delegated Source A entry every record
    of the table is a default record. *)
Theorem empty_feeds (sourceA : list GTLDPeriod) (body : string) :
  (strings_TrimSpace "" = "" →
     table sourceA "" = foldl dedupStep ∅ (delegatedGTLDs sourceA)
     ∧ table [] "" = ∅)
  ∧ (∀ k v, table [] body !! k = Some v → v = mkGTLDPeriod k "1985-01-01" "").
Proof.
  split.
  - intros Hempty.
    assert (tlds "" = []) as Hnone.
    { unfold tldsOfBody, collectTLDs. simpl. unfold tldStep, skipLine.
      by rewrite bool_decide_true. }
    unfold buildTLDMap. by rewrite Hnone.
  - intros k v. rewrite table_lookup. simpl.
    intros Hv. by apply last_collect_label in Hv as [-> _].
Qed.

Local Abbreviation renderOn W Wr :=
  (@renderGTLDMap httpClient_Get json_Unmarshal GTLDPeriodDateFormat time_Parse
     strings_TrimSpace strings_Map_unicode_ToLower htmlEscaper format_Source W Wr).

(** X10: what [renderGTLDMap] does to its writer does not depend on the
    writer: either it returns one and the same error on every writer and
    leaves the writer as it was, or it calls [Write] exactly once, with one
    and the same text, and returns what that call returns. *)
Theorem renderGTLDMap_single_write :
  (∃ err, ∀ (W : Type) (Wr : io_Writer W) (writer : W),
      renderOn W Wr writer = (writer, Some err))
  ∨ (∃ formatted, ∀ (W : Type) (Wr : io_Writer W) (writer : W),
      renderOn W Wr writer
      = ((Write writer formatted).1, (Write writer formatted).2.2)).
Proof.
  destruct renderBuffer as [out [err|]] eqn:Hbuf.
  - left. exists err. intros W Wr writer. by rewrite render_factors, Hbuf.
  - right. exists out. intros W Wr writer. rewrite render_factors, Hbuf.
    by destruct (Write writer out) as [w [n e]].
Qed.

(** X11: Source B is not consulted when Source A fails: if the Source A
    fetch, its decoding or its validation fails, [renderGTLDMap] returns the
    same on any network that answers the Source A request alike. *)
Theorem source_A_failure_ignores_source_B
    (otherNetwork : string → result http_Response)
    {W : Type} `{!io_Writer W} (writer : W) :
  otherNetwork ICANN_GTLD_JSON = httpClient_Get ICANN_GTLD_JSON →
  (∀ allGTLDs, fetchGTLDs = Ok allGTLDs →
               validate (delegatedGTLDs allGTLDs) ≠ None) →
  renderGTLDMap otherNetwork json_Unmarshal GTLDPeriodDateFormat time_Parse
    strings_TrimSpace strings_Map_unicode_ToLower htmlEscaper format_Source writer
  = render writer.
Proof.
  intros Hsame Hfails. unfold renderGTLDMap.
  assert (getGTLDData otherNetwork json_Unmarshal = fetchGTLDs) as ->.
  { unfold getGTLDData, getData. by rewrite Hsame. }
  destruct fetchGTLDs as [allGTLDs|err]; [|done].
  specialize (Hfails allGTLDs eq_refl).
  by destruct (validate (delegatedGTLDs allGTLDs)).
Qed.

(** X18: where an error of [renderGTLDMap] comes from.  An error returned
    is the wrapped error of the Source A fetch, the wrapped decoding error,
    the parse error of validation, the wrapped error of the Source B fetch, or
    the error of [format.Source], with the writer untouched in each of these
    cases; or else it is the error of the one [Write]. *)
Theorem renderGTLDMap_error_origin {W : Type} `{!io_Writer W} (writer writer' : W)
    (err : error) :
  render writer = (writer', Some err) →
  (writer' = writer
   ∧ ((∃ cause, fetch ICANN_GTLD_JSON = Err cause
                ∧ err = error_getting_gTLD_JSON cause)
      ∨ (∃ respBody cause, fetch ICANN_GTLD_JSON = Ok respBody
                           ∧ json_Unmarshal respBody = Err cause
                           ∧ err = error_unmarshaling ICANN_GTLD_JSON cause)
      ∨ (∃ allGTLDs, fetchGTLDs = Ok allGTLDs
                     ∧ validate (delegatedGTLDs allGTLDs) = Some err)
      ∨ (∃ cause, fetch ICANN_TLDS = Err cause
                  ∧ err = error_getting_TLD_list cause)
      ∨ (∃ buf, format_Source buf = Err err)))
  ∨ (∃ formatted n, Write writer formatted = (writer', (n, Some err))).
Proof.
  unfold renderGTLDMap.
  destruct fetchGTLDs as [allGTLDs|e] eqn:HA.
  - destruct (validate (delegatedGTLDs allGTLDs)) as [e|] eqn:Hv.
    { intros [= <- <-]. left. split; [done|]. right. right. left. eauto. }
    destruct fetchTLDs as [allTLDs|e] eqn:HB.
    + unfold gTLDMapTemplate_Execute.
      destruct (format_Source _) as [formatted|e] eqn:Hf.
      * destruct (Write writer formatted) as [w [n e]] eqn:Hw.
        intros [= <- <-]. right. eauto.
      * intros [= <- <-]. left. split; [done|]. do 4 right. eauto.
    + intros [= <- <-]. left. split; [done|]. do 3 right. left.
      unfold getTLDData in HB. destruct (fetch ICANN_TLDS) as [b|cause]; [done|].
      injection HB as <-. eauto.
  - intros [= <- <-]. left. split; [done|].
    unfold getGTLDData in HA. destruct (fetch ICANN_GTLD_JSON) as [b|cause].
    + destruct (json_Unmarshal b) as [l|cause] eqn:Hj; [done|].
      injection HA as <-. right. left. eauto.
    + injection HA as <-. left. eauto.
Qed.

(** *** Further properties of [main] *)

(** X12: without an argument [main] writes to standard output and leaves
    every file alone: a failure before the [Write] only reports the error,
    and a complete [Write] appends the formatted text to standard output and
    exits with status 0. *)
Theorem main_without_arguments (os : OS) :
  files (run [] os).1 = files os
  ∧ (∀ out err, renderBuffer = (out, Some err) → run [] os = errQuit err os)
  ∧ (∀ formatted, renderBuffer = (formatted, None) →
       write_fault os os_Stdout formatted = None →
       (run [] os).2 = 0
       ∧ stdout (run [] os).1 = stdout os +:+ formatted
       ∧ stderr (run [] os).1 = stderr os).
Proof.
  unfold main. rewrite render_factors.
  destruct renderBuffer as [out [err|]]; split_and!.
  - done.
  - by intros ? ? [= <- <-].
  - by intros ? [=].
  - unfold Write, os_File_Writer. simpl.
    destruct (write_fault os os_Stdout out) as [[n e]|]; [|done].
    by case_bool_decide.
  - by intros ? ? [=].
  - intros formatted [= <-] Hfault.
    unfold Write, os_File_Writer. simpl. by rewrite Hfault.
Qed.

(** X13: with a file name, [main] ignores the arguments after the first,
    never writes to standard output, never changes a file other than the
    named one, and, when [os.OpenFile] fails, reports that error and changes
    no file at all. *)
Theorem main_touches_only_named_file (filename : string) (rest : list string)
    (os : OS) :
  run (filename :: rest) os = run [filename] os
  ∧ stdout (run (filename :: rest) os).1 = stdout os
  ∧ (∀ other, other ≠ filename →
       files (run (filename :: rest) os).1 !! other = files os !! other)
  ∧ (∀ err, open_error os filename = Some err →
       run (filename :: rest) os = errQuit err os).
Proof.
  split_and!; [done| | |].
  - unfold main, os_OpenFile_create_trunc.
    destruct (open_error os filename); [done|].
    rewrite render_factors. destruct renderBuffer as [out [err|]]; [done|].
    unfold Write, os_File_Writer. simpl.
    by destruct (write_fault os (os_Named filename) out) as [[n e]|].
  - intros other Hother. unfold main, os_OpenFile_create_trunc.
    destruct (open_error os filename); [done|].
    rewrite render_factors. destruct renderBuffer as [out [err|]]; simpl.
    + by rewrite lookup_insert_ne.
    + unfold Write, os_File_Writer. simpl.
      destruct (write_fault os (os_Named filename) out) as [[n e]|]; simpl;
        by rewrite !lookup_insert_ne.
  - intros err Hopen. unfold main, os_OpenFile_create_trunc. by rewrite Hopen.
Qed.

(** X14: a run with a file name that meets no error exits with status 0 and
    leaves in the file exactly the formatted text, whatever the file held
    before, and reports nothing. *)
Theorem main_success_replaces_file (filename formatted : string)
    (rest : list string) (os : OS) :
  open_error os filename = None →
  renderBuffer = (formatted, None) →
  write_fault os (os_Named filename) formatted = None →
  (run (filename :: rest) os).2 = 0
  ∧ files (run (filename :: rest) os).1 !! filename = Some formatted
  ∧ stderr (run (filename :: rest) os).1 = stderr os.
Proof.
  intros Hopen Hbuf Hfault. unfold main, os_OpenFile_create_trunc.
  rewrite Hopen, render_factors, Hbuf.
  unfold Write, os_File_Writer. simpl. rewrite Hfault. simpl.
  by rewrite !lookup_insert_eq.
Qed.


(** *** Further properties of the template *)

#[local] Instance keyLe_total : Total keyLe.
Proof. intros p q. unfold keyLe. apply total, _. Qed.

(** X16: the [range] of the template visits the records of the built table
    in ascending order of their labels, each label once, and visits exactly
    the records of the table. *)
Theorem range_visits_records_in_label_order (sourceA : list GTLDPeriod)
    (body : string) :
  Sorted String.le (GTLD <$> rangeGTLDs (table sourceA body))
  ∧ NoDup (GTLD <$> rangeGTLDs (table sourceA body))
  ∧ (∀ v, v ∈ rangeGTLDs (table sourceA body) ↔
          table sourceA body !! GTLD v = Some v).
Proof.
  assert (GTLD <$> rangeGTLDs (table sourceA body)
          = (merge_sort keyLe (map_to_list (table sourceA body))).*1) as Hkeys.
  { unfold rangeGTLDs. rewrite <- list_fmap_compose.
    apply Forall_fmap_ext, Forall_forall. intros [k v] Hin.
    rewrite merge_sort_Permutation in Hin. apply elem_of_map_to_list in Hin.
    simpl. by apply table_lookup_label in Hin. }
  split_and!.
  - rewrite Hkeys. apply (Sorted_fmap _ keyLe); [done|].
    apply Sorted_merge_sort, _.
  - rewrite Hkeys, merge_sort_Permutation. apply NoDup_fst_map_to_list.
  - intros v. rewrite elem_of_rangeGTLDs. split; [|by eauto].
    intros [k Hk]. by rewrite (table_lookup_label _ _ _ _ Hk).
Qed.

(** X17: every record of the table handed to the template is written out
    by the [range] block, between the header and the literal [onion] entry;
    so a table that itself has an [onion] record is rendered with two
    entries under that key. *)
Theorem every_record_is_rendered (GTLDs : gmap string GTLDPeriod) (k : string)
    (v : GTLDPeriod) :
  GTLDs !! k = Some v →
  ∃ before after,
    execTemplate GTLDs
    = Ok (templateHeader +:+ before +:+ rangeBody htmlEscaper v +:+ after
          +:+ templateFooter).
Proof.
  intros Hk.
  assert (rangeBody htmlEscaper v ∈ rangeBody htmlEscaper <$> rangeGTLDs GTLDs) as Hin.
  { apply list_elem_of_fmap_2, elem_of_rangeGTLDs. eauto. }
  apply concat_elem_of in Hin as (before & after & Hcat).
  exists before, after. unfold gTLDMapTemplate_Execute.
  by rewrite Hcat, !append_assoc.
Qed.

End BuilderProperties.

(** *** The model on concrete feeds *)

Import fixtures more_fixtures.

(** A label is not in a concrete list of labels: compute the list and walk
    down it. *)
Ltac absent_by_computation :=
  let H := fresh "H" in
  vm_compute; intros H;
  repeat (let H' := fresh "H" in
          inversion H as [|? ? ? H']; subst; clear H; rename H' into H).

Lemma validation_failure_writes_nothing_witness :
  ∃ err, fixtures.render [com; badDate; undelegated] sourceB "" = ("", Some err).
Proof.
  apply (validation_failure_writes_nothing (httpClient_Get sourceB)
           (json_Unmarshal [com; badDate; undelegated]) GTLDPeriodDateFormat time_Parse
           strings_TrimSpace strings_Map_unicode_ToLower htmlEscaper format_Source
           "" [com; badDate; undelegated] badDate).
  - reflexivity.
  - right. left.
  - discriminate.
  - left. vm_compute. discriminate.
Defined.

(** C3 fails on the code: Source A lists [COM] and so does Source B, byte
    for byte; the Source B entry is inserted all the same, under [com]. *)
Lemma source_B_inserted_beside_source_A_counterexample :
  "COM" ∈ GTLD <$> delegatedGTLDs [upperCOM]
  ∧ "COM" ∈ strings_Split "COM" newline
  ∧ fixtures.table [upperCOM] "COM" !! "com" = Some com
  ∧ fixtures.render [upperCOM] "COM" ""
    = (templateHeader +:+ rangeBody htmlEscaper upperCOM
       +:+ rangeBody htmlEscaper com +:+ templateFooter, None).
Proof.
  split_and!.
  - vm_compute. left.
  - vm_compute. left.
  - vm_compute. reflexivity.
  - vm_compute. reflexivity.
Qed.

Lemma source_A_takes_precedence_witness :
  ∃ tldMap,
    fixtures.render [com; aaa; undelegated] sourceB ""
    = emitted htmlEscaper format_Source tldMap ""
    ∧ tldMap !! "aaa" = Some aaa.
Proof.
  pose proof (source_A_takes_precedence (httpClient_Get sourceB) (json_Unmarshal [com; aaa; undelegated])
              GTLDPeriodDateFormat time_Parse strings_TrimSpace
              strings_Map_unicode_ToLower htmlEscaper format_Source "" [com; aaa; undelegated] sourceB
                eq_refl eq_refl eq_refl) as (tldMap & Hrender & Hboth & _).
  exists tldMap. split; [exact Hrender|].
  destruct (Hboth "AAA" aaa) as (a' & Ha' & Hlast & _).
  - vm_compute. right. left.
  - vm_compute. reflexivity.
  - right. left.
  - discriminate.
  - vm_compute. reflexivity.
  - vm_compute in Hlast. injection Hlast as <-. exact Ha'.
Defined.

Lemma source_B_default_fill_witness :
  ∃ allTLDs tldMap,
    getTLDData (httpClient_Get sourceB) strings_TrimSpace strings_Map_unicode_ToLower
    = Ok allTLDs
    ∧ fixtures.render [com; aaa; undelegated] sourceB ""
      = emitted htmlEscaper format_Source tldMap ""
    ∧ tldMap !! "uk" = Some (mkGTLDPeriod "uk" "1985-01-01" "").
Proof.
  pose proof (source_B_default_fill (httpClient_Get sourceB) (json_Unmarshal [com; aaa; undelegated])
              GTLDPeriodDateFormat time_Parse strings_TrimSpace
              strings_Map_unicode_ToLower htmlEscaper format_Source "" [com; aaa; undelegated] sourceB
                eq_refl eq_refl eq_refl)
    as (allTLDs & tldMap & HTLDs & Hrender & _ & _ & Hfill).
  exists allTLDs, tldMap. split_and!; [exact HTLDs|exact Hrender|].
  apply (Hfill "UK").
  - vm_compute. do 3 right. left.
  - vm_compute. intros [H|H]; discriminate H.
  - absent_by_computation.
Defined.



(** C7 fails on the code: the last entry Source A has for [aaa] is one that
    was never delegated; the table keeps the earlier, delegated one. *)
Lemma last_seen_undelegated_counterexample :
  last (filter (λ e, GTLD e = "aaa") [aaa; aaaUndelegated]) = Some aaaUndelegated
  ∧ fixtures.table [aaa; aaaUndelegated] "" !! "aaa" = Some aaa
  ∧ fixtures.render [aaa; aaaUndelegated] "" ""
    = (templateHeader +:+ rangeBody htmlEscaper aaa +:+ templateFooter, None).
Proof.
  split_and!.
  - vm_compute. reflexivity.
  - vm_compute. reflexivity.
  - vm_compute. reflexivity.
Qed.

Lemma duplicates_keep_last_witness :
  (∃ tldMap,
     fixtures.render [aaaEarlier; com; aaa; undelegated] sourceB ""
     = emitted htmlEscaper format_Source tldMap ""
     ∧ tldMap !! "aaa" = Some aaa)
  ∧ (∃ tldMap,
       fixtures.render [mutuelle] (String.concat nl ["COM"; "com"]) ""
       = emitted htmlEscaper format_Source tldMap ""
       ∧ tldMap !! "com" = Some com).
Proof.
  split.
  - pose proof (duplicates_keep_last (httpClient_Get sourceB) (json_Unmarshal [aaaEarlier; com; aaa; undelegated])
              GTLDPeriodDateFormat time_Parse strings_TrimSpace
              strings_Map_unicode_ToLower htmlEscaper format_Source "" [aaaEarlier; com; aaa; undelegated]
                  sourceB eq_refl eq_refl eq_refl)
      as (allTLDs & tldMap & _ & Hrender & HlastA & _).
    exists tldMap. split; [exact Hrender|].
    apply HlastA. vm_compute. reflexivity.
  - pose proof (duplicates_keep_last (httpClient_Get (String.concat nl ["COM"; "com"])) (json_Unmarshal [mutuelle])
              GTLDPeriodDateFormat time_Parse strings_TrimSpace
              strings_Map_unicode_ToLower htmlEscaper format_Source "" [mutuelle]
                  (String.concat nl ["COM"; "com"]) eq_refl eq_refl eq_refl)
      as (allTLDs & tldMap & HTLDs & Hrender & _ & HlastB).
    exists tldMap. split; [exact Hrender|].
    apply HlastB.
    + absent_by_computation.
    + vm_compute in HTLDs. injection HTLDs as <-. vm_compute. reflexivity.
Defined.

(** C8 fails on the code: Source A spells the label [COM], Source B spells it
    [com]; the table keeps Source A's entry under the upper-case key and adds
    Source B's entry under the lower-case one. *)
Lemma source_A_case_kept_counterexample :
  fixtures.table [upperCOM] "com" !! "COM" = Some upperCOM
  ∧ anyByte isUpperByte "COM" = true
  ∧ fixtures.table [upperCOM] "com" !! "com" = Some com
  ∧ size (fixtures.table [upperCOM] "com") = 2%nat.
Proof. vm_compute. done. Qed.

Lemma keys_lowered_from_source_B_only_witness :
  ∃ a, fixtures.table [com; aaa; undelegated] sourceB !! "com" = Some a
       ∧ a ∈ [com; aaa; undelegated] ∧ DelegationDate a ≠ "" ∧ GTLD a = "com".
Proof.
  apply (proj2 (proj2 (keys_lowered_from_source_B_only strings_TrimSpace
                         strings_Map_unicode_ToLower [com; aaa; undelegated] sourceB))
           "COM" com).
  - vm_compute. do 2 right. left.
  - vm_compute. reflexivity.
  - left.
  - discriminate.
  - vm_compute. reflexivity.
Defined.

(** C10 fails on the code: the [Write] to [out.go] fails after seven bytes;
    the run exits with status 1 and the file is left with those seven bytes,
    not empty. *)
Lemma partial_write_left_behind_counterexample :
  (fixtures.run [com; aaa; undelegated] sourceB ["out.go"] fullDisk).2 = 1
  ∧ stderr (fixtures.run [com; aaa; undelegated] sourceB ["out.go"] fullDisk).1
    = [library_error "no space left on device"]
  ∧ files (fixtures.run [com; aaa; undelegated] sourceB ["out.go"] fullDisk).1 !! "out.go"
    = Some "// Code".
Proof. vm_compute. done. Qed.

Lemma failed_run_leaves_truncated_file_witness :
  ((runOffline ["out.go"] fullDisk).2 = 1
   ∧ files (runOffline ["out.go"] fullDisk).1 !! "out.go" = Some "")
  ∧ ((fixtures.run [com; aaa; undelegated] sourceB ["out.go"] fullDisk).2 = 1
     ∧ files (fixtures.run [com; aaa; undelegated] sourceB ["out.go"] fullDisk).1
         !! "out.go"
       = Some (takeBytes 7 (fixtures.render [com; aaa; undelegated] sourceB "").1)).
Proof.
  split.
  - apply (proj1 (failed_run_leaves_truncated_file offline (json_Unmarshal [])
                    GTLDPeriodDateFormat time_Parse strings_TrimSpace
                    strings_Map_unicode_ToLower htmlEscaper format_Source
                    "out.go" [] fullDisk eq_refl)
             "" (error_getting_gTLD_JSON
                   (unable_to_fetch ICANN_GTLD_JSON
                      (library_error "dial tcp: i/o timeout")))).
    vm_compute. reflexivity.
  - apply (proj2 (failed_run_leaves_truncated_file (httpClient_Get sourceB)
                    (json_Unmarshal [com; aaa; undelegated])
                    GTLDPeriodDateFormat time_Parse strings_TrimSpace
                    strings_Map_unicode_ToLower htmlEscaper format_Source
                    "out.go" [] fullDisk eq_refl)
             (fixtures.render [com; aaa; undelegated] sourceB "").1
             7%nat (library_error "no space left on device")).
    + vm_compute. reflexivity.
    + vm_compute. reflexivity.
Defined.

(** *** The further properties on concrete feeds and machines *)

(** A run whose standard output is a closed pipe: the process is killed by
    [SIGPIPE] and nothing reaches standard error. *)
Example main_killed_by_SIGPIPE :
  (fixtures.run [com; aaa] sourceB [] closedPipeOS).2 = killedBy SIGPIPE
  ∧ stderr (fixtures.run [com; aaa] sourceB [] closedPipeOS).1 = [].
Proof. vm_compute. done. Qed.

Lemma getData_result_witness :
  getData (httpClient_Get sourceB) ICANN_TLDS = Ok sourceB.
Proof.
  apply (proj1 (getData_result (httpClient_Get sourceB) ICANN_TLDS)).
  exists (mkResponse 200 (Ok sourceB)). split_and!; reflexivity.
Defined.

Lemma validateGTLDs_nil_iff_witness :
  validateGTLDs GTLDPeriodDateFormat time_Parse [com; mutuelle] = None.
Proof.
  apply (proj2 (validateGTLDs_nil_iff GTLDPeriodDateFormat time_Parse [com; mutuelle])).
  intros e He.
  apply elem_of_cons in He as [->|He]; [vm_compute; auto|].
  apply elem_of_cons in He as [->|He]; [vm_compute; auto|].
  inversion He.
Defined.

Lemma validateGTLDs_first_error_witness :
  ∃ before gTLD after,
    [com; badDate; undelegated] = before ++ gTLD :: after
    ∧ validateGTLDs GTLDPeriodDateFormat time_Parse before = None
    ∧ (time_Parse GTLDPeriodDateFormat (DelegationDate gTLD)
       = Some (library_error "parsing time: cannot parse")
       ∨ (time_Parse GTLDPeriodDateFormat (DelegationDate gTLD) = None
          ∧ RemovalDate gTLD ≠ ""
          ∧ time_Parse GTLDPeriodDateFormat (RemovalDate gTLD)
            = Some (library_error "parsing time: cannot parse"))).
Proof.
  apply (validateGTLDs_first_error GTLDPeriodDateFormat time_Parse).
  vm_compute. reflexivity.
Defined.

Lemma validateGTLDs_rejects_undelegated_witness :
  validateGTLDs GTLDPeriodDateFormat time_Parse [com; undelegated] ≠ None.
Proof.
  apply (validateGTLDs_rejects_undelegated GTLDPeriodDateFormat time_Parse
           [com; undelegated] undelegated).
  - vm_compute. discriminate.
  - right. left.
  - reflexivity.
Defined.

Lemma merged_table_has_valid_dates_witness :
  time_Parse GTLDPeriodDateFormat "2015-08-13" = None
  ∧ ("" = "" ∨ time_Parse GTLDPeriodDateFormat "" = None).
Proof.
  apply (merged_table_has_valid_dates GTLDPeriodDateFormat time_Parse
           strings_TrimSpace strings_Map_unicode_ToLower
           [com; aaa; undelegated] sourceB eq_refl eq_refl "aaa" aaa).
  vm_compute. reflexivity.
Defined.

Lemma table_labels_witness :
  is_Some (fixtures.table [com; aaa; undelegated] sourceB !! "uk").
Proof.
  apply (proj1 (table_labels strings_TrimSpace strings_Map_unicode_ToLower
                  [com; aaa; undelegated] sourceB "uk")).
  right. vm_compute. do 2 right. left.
Defined.

Lemma source_B_order_irrelevant_witness :
  buildTLDMap (delegatedGTLDs [com; undelegated])
    (collectTLDs strings_TrimSpace strings_Map_unicode_ToLower ["AAA"; "UK"])
  = buildTLDMap (delegatedGTLDs [com; undelegated])
      (collectTLDs strings_TrimSpace strings_Map_unicode_ToLower ["UK"; "AAA"; "UK"]).
Proof.
  apply (source_B_order_irrelevant strings_TrimSpace strings_Map_unicode_ToLower).
  intros l. rewrite !elem_of_cons, !elem_of_nil. tauto.
Defined.

Lemma empty_feeds_witness :
  fixtures.table [com; undelegated] "" = foldl dedupStep ∅ (delegatedGTLDs [com; undelegated])
  ∧ fixtures.table [] "" = ∅.
Proof.
  apply (proj1 (empty_feeds strings_TrimSpace strings_Map_unicode_ToLower
                  [com; undelegated] "")).
  reflexivity.
Defined.

Lemma source_A_failure_ignores_source_B_witness :
  fixtures.render [com; badDate] "" "" = fixtures.render [com; badDate] sourceB "".
Proof.
  apply (source_A_failure_ignores_source_B (httpClient_Get sourceB)
           (json_Unmarshal [com; badDate]) GTLDPeriodDateFormat time_Parse
           strings_TrimSpace strings_Map_unicode_ToLower htmlEscaper format_Source
           (httpClient_Get "") "").
  - reflexivity.
  - intros allGTLDs Hfetch. vm_compute in Hfetch. injection Hfetch as <-.
    vm_compute. discriminate.
Defined.

Lemma main_without_arguments_witness :
  (fixtures.run [com; aaa] sourceB [] plainOS).2 = 0
  ∧ stdout (fixtures.run [com; aaa] sourceB [] plainOS).1
    = stdout plainOS +:+ (fixtures.render [com; aaa] sourceB "").1
  ∧ stderr (fixtures.run [com; aaa] sourceB [] plainOS).1 = stderr plainOS.
Proof.
  apply (proj2 (proj2 (main_without_arguments (httpClient_Get sourceB)
                         (json_Unmarshal [com; aaa]) GTLDPeriodDateFormat time_Parse
                         strings_TrimSpace strings_Map_unicode_ToLower htmlEscaper
                         format_Source plainOS))).
  - vm_compute. reflexivity.
  - reflexivity.
Defined.

Lemma main_touches_only_named_file_witness :
  files (fixtures.run [com; aaa] sourceB ["out.go"] plainOS).1 !! "notes.txt"
  = files plainOS !! "notes.txt"
  ∧ fixtures.run [com; aaa] sourceB ["out.go"] readOnlyOS
    = errQuit (library_error "permission denied") readOnlyOS.
Proof.
  split.
  - apply (proj1 (proj2 (proj2 (main_touches_only_named_file (httpClient_Get sourceB)
                                  (json_Unmarshal [com; aaa]) GTLDPeriodDateFormat
                                  time_Parse strings_TrimSpace
                                  strings_Map_unicode_ToLower htmlEscaper
                                  format_Source "out.go" [] plainOS)))).
    discriminate.
  - apply (proj2 (proj2 (proj2 (main_touches_only_named_file (httpClient_Get sourceB)
                                  (json_Unmarshal [com; aaa]) GTLDPeriodDateFormat
                                  time_Parse strings_TrimSpace
                                  strings_Map_unicode_ToLower htmlEscaper
                                  format_Source "out.go" [] readOnlyOS)))).
    reflexivity.
Defined.

Lemma main_success_replaces_file_witness :
  (fixtures.run [com; aaa] sourceB ["out.go"] plainOS).2 = 0
  ∧ files (fixtures.run [com; aaa] sourceB ["out.go"] plainOS).1 !! "out.go"
    = Some (fixtures.render [com; aaa] sourceB "").1
  ∧ stderr (fixtures.run [com; aaa] sourceB ["out.go"] plainOS).1 = stderr plainOS.
Proof.
  apply (main_success_replaces_file (httpClient_Get sourceB)
           (json_Unmarshal [com; aaa]) GTLDPeriodDateFormat time_Parse
           strings_TrimSpace strings_Map_unicode_ToLower htmlEscaper format_Source
           "out.go" (fixtures.render [com; aaa] sourceB "").1 [] plainOS).
  - reflexivity.
  - vm_compute. reflexivity.
  - reflexivity.
Defined.

Lemma every_record_is_rendered_witness :
  ∃ before after,
    gTLDMapTemplate_Execute htmlEscaper (fixtures.table [] "ONION")
    = Ok (templateHeader +:+ before
          +:+ rangeBody htmlEscaper (mkGTLDPeriod "onion" "1985-01-01" "")
          +:+ after +:+ templateFooter).
Proof.
  apply (every_record_is_rendered htmlEscaper (fixtures.table [] "ONION") "onion").
  vm_compute. reflexivity.
Defined.

Lemma renderGTLDMap_error_origin_witness :
  ∃ allGTLDs,
    getGTLDData (httpClient_Get sourceB) (json_Unmarshal [com; badDate]) = Ok allGTLDs
    ∧ validateGTLDs GTLDPeriodDateFormat time_Parse (delegatedGTLDs allGTLDs)
      = Some (library_error "parsing time: cannot parse").
Proof.
  destruct (renderGTLDMap_error_origin (httpClient_Get sourceB)
              (json_Unmarshal [com; badDate]) GTLDPeriodDateFormat time_Parse
              strings_TrimSpace strings_Map_unicode_ToLower htmlEscaper format_Source
              "" "" (library_error "parsing time: cannot parse"))
    as [[_ [H|[H|[H|[H|H]]]]]|H].
  - vm_compute. reflexivity.
  - destruct H as (cause & H & _). vm_compute in H. discriminate H.
  - destruct H as (respBody & cause & _ & H & _). discriminate H.
  - exact H.
  - destruct H as (cause & H & _). vm_compute in H. discriminate H.
  - destruct H as (buf & H). discriminate H.
  - destruct H as (formatted & n & H). discriminate H.
Defined.

End gtld_update_spec.

(** * Properties of the lint execution contract *)

Module lints_spec.
Import lints.

Lemma elem_of_all (reg : gmap string Lint) (l : Lint) :
  l ∈ all reg ↔ ∃ name, reg !! name = Some l.
Proof.
  unfold all. rewrite list_elem_of_fmap. split.
  - intros ([name l'] & -> & Hin). rewrite merge_sort_Permutation in Hin.
    apply elem_of_map_to_list in Hin. eauto.
  - intros [name Hname]. exists (name, l). split; [done|].
    rewrite merge_sort_Permutation. by apply elem_of_map_to_list.
Qed.

Lemma length_all (reg : gmap string Lint) : length (all reg) = size reg.
Proof.
  unfold all. rewrite length_fmap, merge_sort_Permutation.
  apply length_map_to_list.
Qed.

(** C1: for a registered lint and any certificate, [execute] gives one
    result, with a status among the five; a fault of the applicability
    predicate or of the check logic comes out as a [Fatal] result carrying
    the diagnostic; and a batch run has one row per certificate, with one
    result per registered lint, the result of this lint among them, whatever
    faults the other evaluations met. *)
Theorem execute_contains_faults (reg : gmap string Lint) (name : string)
    (l : Lint) (c : Certificate) :
  get name reg = Some l →
  Status (execute l c) ∈ [NA; Pass; Warn; Error; Fatal]
  ∧ (∀ diagnostic, isEffective l c = true →
       CheckApplies l c = faulted diagnostic →
       execute l c = mkLintResult Fatal (Some diagnostic))
  ∧ (∀ diagnostic, isEffective l c = true →
       CheckApplies l c = returned true →
       Check l c = faulted diagnostic →
       execute l c = mkLintResult Fatal (Some diagnostic))
  ∧ (∀ certs : list Certificate,
       length (executeBatch reg certs) = length certs
       ∧ ∀ i c', certs !! i = Some c' →
           ∃ row, executeBatch reg certs !! i = Some row
                  ∧ length row = size reg
                  ∧ (Name l, execute l c') ∈ row).
Proof.
  intros Hreg. split_and!.
  - destruct (Status (execute l c)); set_solver.
  - intros d Heff Happ. unfold execute. by rewrite Heff, Happ.
  - intros d Heff Happ Hcheck. unfold execute. by rewrite Heff, Happ, Hcheck.
  - intros certs. unfold executeBatch. split; [by rewrite length_fmap|].
    intros i c' Hi. exists (executeAll reg c'). split_and!.
    + by rewrite list_lookup_fmap, Hi.
    + unfold executeAll. by rewrite length_fmap, length_all.
    + unfold executeAll.
      apply (list_elem_of_fmap_2 (λ l0, (Name l0, execute l0 c'))).
      apply elem_of_all. by exists name.
Qed.

(** C4: a lint with effective window [start, end) gives [NA] for a
    certificate issued before [start] or at or after [end], whatever its
    applicability predicate and its check logic do. *)
Theorem outside_window_not_applicable (l : Lint) (c : Certificate) (start end_ : Z) :
  EffectiveWindow l = Some (start, end_) →
  NotBefore c < start ∨ end_ ≤ NotBefore c →
  execute l c = mkLintResult NA None.
Proof.
  intros Hwin Hout. unfold execute, isEffective. rewrite Hwin.
  destruct Hout as [Hlt|Hge].
  - by rewrite (proj2 (Z.leb_gt start (NotBefore c)) Hlt).
  - rewrite (proj2 (Z.ltb_ge (NotBefore c) end_) Hge).
    by rewrite andb_false_r.
Qed.

Import fixtures.

Lemma execute_contains_faults_witness :
  execute faulty (issuedAt 150) = mkLintResult Fatal (Some "nil pointer dereference")
  ∧ ∃ row, executeBatch registry [issuedAt 50; issuedAt 150] !! 1%nat = Some row
           ∧ length row = size registry
           ∧ (Name windowed, execute windowed (issuedAt 150)) ∈ row.
Proof.
  split.
  - apply (proj1 (proj2 (execute_contains_faults registry "e_faulty" faulty
                           (issuedAt 150) eq_refl))); reflexivity.
  - apply (proj2 (proj2 (proj2 (proj2 (execute_contains_faults registry "e_windowed"
                                         windowed (issuedAt 150) eq_refl)))
                    [issuedAt 50; issuedAt 150])
             1%nat (issuedAt 150)).
    reflexivity.
Defined.

Lemma outside_window_not_applicable_witness :
  execute windowed (issuedAt 200) = mkLintResult NA None
  ∧ execute windowed (issuedAt 99) = mkLintResult NA None.
Proof.
  split.
  - apply (outside_window_not_applicable windowed (issuedAt 200) 100 200 eq_refl).
    right. vm_compute. discriminate.
  - apply (outside_window_not_applicable windowed (issuedAt 99) 100 200 eq_refl).
    left. reflexivity.
Defined.

End lints_spec.

(** * Properties of the generated stubs *)

Module stubs_spec.

Section Enum.
Import enums.

(** X19: the two generated enum maps are inverse to each other, a number
    has a name exactly when that name has the number, and the numbers that
    have a name are the five declared constants. *)
Theorem enum_name_value_inverse (n : Z) (s : string) :
  (OfflineUserDataJobTypeEnum_OfflineUserDataJobType_name !! n = Some s ↔
   OfflineUserDataJobTypeEnum_OfflineUserDataJobType_value !! s = Some n)
  ∧ (is_Some (OfflineUserDataJobTypeEnum_OfflineUserDataJobType_name !! Number n) ↔
     n ∈ declaredConstants).
Proof.
  assert (map_Forall
            (λ n s, OfflineUserDataJobTypeEnum_OfflineUserDataJobType_value !! s = Some n
                    ∧ n ∈ declaredConstants)
            OfflineUserDataJobTypeEnum_OfflineUserDataJobType_name) as Hname
    by (refine (bool_decide_unpack _ _); vm_compute; exact I).
  assert (map_Forall
            (λ s n, OfflineUserDataJobTypeEnum_OfflineUserDataJobType_name !! n = Some s)
            OfflineUserDataJobTypeEnum_OfflineUserDataJobType_value) as Hvalue
    by (refine (bool_decide_unpack _ _); vm_compute; exact I).
  assert (Forall
            (λ n, is_Some (OfflineUserDataJobTypeEnum_OfflineUserDataJobType_name !! n))
            declaredConstants) as Hdeclared
    by (refine (bool_decide_unpack _ _); vm_compute; exact I).
  split; split.
  - intros Hn. by apply (Hname n s Hn).
  - intros Hs. by apply (Hvalue s n Hs).
  - intros [s' Hn]. by apply (Hname n s' Hn).
  - intros Hin. by apply (proj1 (Forall_forall _ _) Hdeclared n Hin).
Qed.

End Enum.

Section Oneof.
Import keyword_plan_keyword_service.
Context {KeywordPlanKeyword FieldMask : Type}.

Local Abbreviation message := (option (KeywordPlanKeywordOperation KeywordPlanKeyword FieldMask)).

(** X20: the getters of the [operation] oneof exclude each other: when one
    of [GetCreate], [GetUpdate], [GetRemove] returns a value other than its
    zero value, the two others return their zero values. *)
Theorem oneof_getters_exclusive (x : message) :
  (∀ c, GetCreate x = returns (Some c) →
        GetUpdate x = returns None ∧ GetRemove x = returns "")
  ∧ (∀ u, GetUpdate x = returns (Some u) →
          GetCreate x = returns None ∧ GetRemove x = returns "")
  ∧ (∀ r, GetRemove x = returns r → r ≠ "" →
          GetCreate x = returns None ∧ GetUpdate x = returns None).
Proof.
  unfold GetCreate, GetUpdate, GetRemove.
  destruct (GetOperation x) as [[[w|]|[w|]|[w|]]|]; split_and!;
    try done; intros ? [= <-]; done.
Qed.

(** X21: a getter of the oneof panics exactly when the [Operation] field
    holds a nil pointer of that getter's own wrapper type; on a nil message
    and on a message whose oneof is unset every getter returns its zero
    value. *)
Theorem oneof_getters_panic_iff (x : message) :
  (GetCreate x = panics ↔ GetOperation x = Some (ptr_Create None))
  ∧ (GetUpdate x = panics ↔ GetOperation x = Some (ptr_Update None))
  ∧ (GetRemove x = panics ↔ GetOperation x = Some (ptr_Remove None))
  ∧ (GetOperation x = None →
       GetCreate x = returns None ∧ GetUpdate x = returns None
       ∧ GetRemove x = returns "")
  ∧ GetOperation (None : message) = None.
Proof.
  unfold GetCreate, GetUpdate, GetRemove.
  destruct (GetOperation x) as [[[w|]|[w|]|[w|]]|]; split_and!;
    try done; split; done.
Qed.

End Oneof.

Section Handler.
Import video_service.
Context {context_Context Video State : Type}.

Local Abbreviation handle :=
  (@_VideoService_GetVideo_Handler context_Context Video State).

(** X22: when [dec] returns an error, the handler returns the untyped nil
    and that error, with the state as [dec] left it, whatever [srv] and the
    interceptor are; and without an interceptor the handler panics exactly
    when [dec] is nil or panics, or the request decodes and either [srv] does
    not implement the service or its [GetVideo] panics. *)
Theorem handler_decode_error_and_panics
    (srv : option (VideoServiceServer context_Context Video State))
    (ctx : context_Context) (dec : option (decoder State)) (s : State) :
  (∀ decode s' in_ err interceptor,
     dec = Some decode →
     decode (mkGetVideoRequest "") s = returns (s', (in_, Some err)) →
     handle srv ctx dec interceptor s = returns (s', (untyped_nil, Some err)))
  ∧ (handle srv ctx dec None s = panics ↔
     dec = None
     ∨ ∃ decode, dec = Some decode
         ∧ (decode (mkGetVideoRequest "") s = panics
            ∨ ∃ s' in_, decode (mkGetVideoRequest "") s = returns (s', (in_, None))
                ∧ (srv = None
                   ∨ ∃ server, srv = Some server
                       ∧ GetVideo _ _ _ server ctx (Some in_) s' = panics))).
Proof.
  unfold _VideoService_GetVideo_Handler. split.
  - intros decode s' in_ err interceptor -> Hdec. by rewrite Hdec.
  - destruct dec as [decode|]; [|split; [by left|done]].
    destruct (decode (mkGetVideoRequest "") s) as [[s' [in_ [err|]]]|] eqn:Hdec.
    + split; [done|].
      intros [?|(d & [= <-] & [Hp|(s'' & in' & Hr & _)])]; [done| |];
        rewrite Hdec in *; done.
    + destruct srv as [server|].
      * destruct (GetVideo _ _ _ server ctx (Some in_) s') as [[s'' [out e]]|]
          eqn:Hcall; simpl.
        -- split; [done|].
           intros [?|(d & [= <-] & [Hp|(s3 & in' & Hr & Hsrv)])]; [done| |].
           ++ by rewrite Hdec in Hp.
           ++ rewrite Hdec in Hr. injection Hr as <- <-.
              destruct Hsrv as [?|(server' & [= <-] & Hp)]; [done|].
              by rewrite Hcall in Hp.
        -- split; [|done]. intros _. right. exists decode. split; [done|].
           right. exists s', in_. split; [done|]. right. eauto.
      * split; [|done]. intros _. right. exists decode. split; [done|].
        right. exists s', in_. split; [done|]. by left.
    + split; [|done]. intros _. right. exists decode. split; [done|]. by left.
Qed.

(** X23: an interceptor that only forwards its request to the handler it is
    given is transparent: the handler returns what it returns without an
    interceptor. *)
Theorem forwarding_interceptor_is_transparent
    (srv : option (VideoServiceServer _ _ _)) (ctx : context_Context)
    (dec : option (decoder State))
    (interceptor : grpc_UnaryServerInterceptor context_Context Video State)
    (s : State) :
  (∀ ctx' req info handler s', interceptor ctx' req info handler s' = handler ctx' req s') →
  handle srv ctx dec (Some interceptor) s = handle srv ctx dec None s.
Proof.
  intros Hforward. unfold _VideoService_GetVideo_Handler.
  destruct dec as [decode|]; [|done].
  destruct (decode (mkGetVideoRequest "") s) as [[s' [in_ [err|]]]|]; [done| |done].
  rewrite Hforward. by destruct srv.
Qed.

End Handler.

Import more_fixtures keyword_plan_keyword_service video_service.

Lemma oneof_getters_exclusive_witness :
  GetCreate removeOperation = returns None
  ∧ GetUpdate removeOperation = returns None.
Proof.
  apply (proj2 (proj2 (oneof_getters_exclusive removeOperation))
           "customers/1/keywordPlanKeywords/2").
  - reflexivity.
  - discriminate.
Defined.

Lemma oneof_getters_panic_iff_witness :
  GetCreate nilCreateOperation = panics.
Proof.
  apply (proj1 (oneof_getters_panic_iff nilCreateOperation)). reflexivity.
Defined.

Lemma handler_decode_error_and_panics_witness :
  _VideoService_GetVideo_Handler (Video := string) None tt (Some decodeFails)
    (Some forwarding) 0%nat
  = returns (1%nat, (untyped_nil, Some (other_error "unexpected EOF")))
  ∧ _VideoService_GetVideo_Handler (Video := string) None tt (Some decodePanics)
      None 0%nat
    = panics.
Proof.
  split.
  - apply (proj1 (handler_decode_error_and_panics None tt (Some decodeFails) 0%nat)
             decodeFails 1%nat (mkGetVideoRequest "")); reflexivity.
  - apply (proj2 (handler_decode_error_and_panics None tt (Some decodePanics) 0%nat)).
    right. exists decodePanics. split; [reflexivity|by left].
Defined.

Lemma forwarding_interceptor_is_transparent_witness :
  _VideoService_GetVideo_Handler (Some countingServer) tt (Some decodeVideo7)
    (Some forwarding) 0%nat
  = _VideoService_GetVideo_Handler (Some countingServer) tt (Some decodeVideo7)
      None 0%nat.
Proof.
  apply (forwarding_interceptor_is_transparent (Some countingServer) tt
           (Some decodeVideo7) forwarding 0%nat).
  reflexivity.
Defined.

End stubs_spec.
